(** * bitcore-node-zen: the DB service and the transaction-record codec

  A shallow embedding of [DB] (the chain-indexing service: version guard,
  tip load, block applier, prefix allocator) and of the value codec of
  [TransactionService], followed by the properties of the specification
  that concern them.

  Conventions of the embedding.
  - A Node [Buffer] is a [list Z] whose elements are bytes (0..255).
  - A JavaScript number that the code stores with [writeDoubleBE] is
    represented by its IEEE-754 binary64 bit pattern, a [Z] below 2^64;
    no floating-point arithmetic is performed by the code under study.
  - A callback-taking function becomes a state transformer returning an
    [outcome]: the callback receives a value, the callback receives an
    error, an exception escapes, or the callback is never invoked.
  - The LevelDB store is a [gmap] from keys to buffers; the environment
    (I/O faults of the store, answers of bitcoind) is explicit. *)

From stdpp Require Import gmap strings list pretty.
From Stdlib Require Import ZArith Lia Ascii.

Local Open Scope Z_scope.

(* ===================================================================== *)
(** * Buffers *)
(* ===================================================================== *)

Module Buf.

Abbreviation Buffer := (list Z).

Definition is_byte (b : Z) : Prop := 0 <= b < 256.

Definition wf (b : Buffer) : Prop := Forall is_byte b.

(** [n] bytes of [v], most significant first. *)
Fixpoint be_bytes (n : nat) (v : Z) : Buffer :=
  match n with
  | O => []
  | S n' => be_bytes n' (v / 256) ++ [v mod 256]
  end.

(** The unsigned value of a big-endian byte sequence. *)
Definition be_value (b : Buffer) : Z :=
  fold_left (fun acc x => acc * 256 + x) b 0.

(** [buf.writeUIntXXBE(value)] on a fresh buffer of [n] bytes at offset 0:
    Node checks the range of [value] and raises a [RangeError] when it does
    not fit ([None] here). *)
Definition writeUIntBE (n : nat) (value : Z) : option Buffer :=
  if (0 <=? value) && (value <? 256 ^ Z.of_nat n)
  then Some (be_bytes n value) else None.

Definition writeUInt16BE : Z -> option Buffer := writeUIntBE 2.
Definition writeUInt32BE : Z -> option Buffer := writeUIntBE 4.

(** [buf.slice(start, end)] with non-negative arguments: clamps. *)
Definition slice (start stop : nat) (b : Buffer) : Buffer :=
  take (stop - start) (drop start b).

(** [buf.slice(start)]. *)
Definition slice_from (start : nat) (b : Buffer) : Buffer := drop start b.

(** [buf.readUIntXXBE(offset)]: raises a [RangeError] when the [n] bytes
    are not all inside the buffer ([None] here). An omitted offset is 0. *)
Definition readUIntBE (n : nat) (offset : nat) (b : Buffer) : option Z :=
  if decide (offset + n <= length b)%nat
  then Some (be_value (take n (drop offset b))) else None.

Definition readUInt16BE : nat -> Buffer -> option Z := readUIntBE 2.
Definition readUInt32BE : nat -> Buffer -> option Z := readUIntBE 4.

(** [writeDoubleBE] / [readDoubleBE] on the bit pattern of the number. The
    write never raises for a number; the read raises out of range. *)
Definition writeDoubleBE (bits : Z) : Buffer := be_bytes 8 bits.
Definition readDoubleBE : nat -> Buffer -> option Z := readUIntBE 8.

(** [BufferUtil.reverse]. *)
Definition reverse (b : Buffer) : Buffer := rev b.

(** ** Hexadecimal: [buf.toString('hex')] and [new Buffer(str, 'hex')] *)

Definition hex_digit (n : Z) : ascii :=
  if n <? 10 then ascii_of_N (Z.to_N (48 + n))
  else ascii_of_N (Z.to_N (87 + n)).

Definition hex_value (c : ascii) : option Z :=
  let n := Z.of_N (N_of_ascii c) in
  if (48 <=? n) && (n <=? 57) then Some (n - 48)
  else if (97 <=? n) && (n <=? 102) then Some (n - 87)
  else if (65 <=? n) && (n <=? 70) then Some (n - 55)
  else None.

Fixpoint toHex (b : Buffer) : string :=
  match b with
  | [] => EmptyString
  | x :: b' => String (hex_digit (x / 16)) (String (hex_digit (x mod 16)) (toHex b'))
  end.

(** Decoding of a hex string; [None] for a string that is not an even
    number of hex digits (Node raises or truncates there, by version). *)
Fixpoint fromHex (s : string) : option Buffer :=
  match s with
  | EmptyString => Some []
  | String c1 (String c2 s') =>
      match hex_value c1, hex_value c2, fromHex s' with
      | Some h, Some l, Some b => Some (h * 16 + l :: b)
      | _, _, _ => None
      end
  | String _ EmptyString => None
  end.

End Buf.

(* ===================================================================== *)
(** * Callbacks, the store and the environment *)
(* ===================================================================== *)

Module Async.
Import Buf.

(** A JavaScript [Error], identified by its message. *)
Abbreviation Error := string.

(** How a function that takes a Node-style callback ends. *)
Inductive outcome (A : Type) : Type :=
| Ret (a : A)          (* callback(null, a) *)
| Err (e : Error)      (* callback(err) *)
| Thrown (e : Error)   (* an exception escapes; the callback is not invoked *)
| NoCallback.          (* the function returns; the callback is not invoked *)
Arguments Ret {A} a.
Arguments Err {A} e.
Arguments Thrown {A} e.
Arguments NoCallback {A}.

(** ** Blocks and batch operations *)

Record BlockHeader := mkHeader { prevHash : Buffer }.

(** [hash] is the hex string bitcore computes; [__height] is the decoration
    the DB service attaches. *)
Record Block := mkBlock {
  hash : string;
  header : BlockHeader;
  __height : Z;
}.

Definition set_height (h : Z) (b : Block) : Block :=
  {| hash := hash b; header := header b; __height := h |}.

Inductive OpType := put | del.

(** A batch operation [{type, key, value}]; [value] is unused by [del]. *)
Record Operation := mkOp {
  type : OpType;
  key : string;
  value : Buffer;
}.

Definition apply_op (m : gmap string Buffer) (op : Operation) : gmap string Buffer :=
  match type op with
  | put => <[key op := value op]> m
  | del => delete (key op) m
  end.

(** LevelDB applies the operations of a batch in order. *)
Definition apply_batch (ops : list Operation) (m : gmap string Buffer) : gmap string Buffer :=
  fold_left apply_op ops m.

(** A write request handed to the store. *)
Inductive StoreCall :=
| CallPut (k : string) (v : Buffer)
| CallBatch (ops : list Operation).

(** ** State: the fields of [this] that the code reads and writes, the
    contents of the store, and the environment. *)
Record State := mkState {
  store : gmap string Buffer;        (* contents of this.store *)
  calls : list StoreCall;            (* write requests submitted, oldest first *)
  faults : list (option Error);      (* I/O outcome of the next store operations *)
  tip : option Block;                (* this.tip *)
  concurrentTip : option Block;      (* this.concurrentTip *)
  genesis : Block;                   (* this.genesis *)
  emitted : list (string * Block);   (* events emitted, oldest first *)
  rpcs : nat;                        (* bitcoind.getBlock calls made so far *)
}.

Definition with_store (m : gmap string Buffer) (c : list StoreCall)
    (f : list (option Error)) (s : State) : State :=
  {| store := m; calls := c; faults := f; tip := tip s;
     concurrentTip := concurrentTip s; genesis := genesis s;
     emitted := emitted s; rpcs := rpcs s |}.

Definition with_tip (t : option Block) (g : Block) (s : State) : State :=
  {| store := store s; calls := calls s; faults := faults s; tip := t;
     concurrentTip := concurrentTip s; genesis := g;
     emitted := emitted s; rpcs := rpcs s |}.

Definition with_concurrentTip (t : option Block) (g : Block) (s : State) : State :=
  {| store := store s; calls := calls s; faults := faults s; tip := tip s;
     concurrentTip := t; genesis := g;
     emitted := emitted s; rpcs := rpcs s |}.

Definition with_emitted (ev : list (string * Block)) (s : State) : State :=
  {| store := store s; calls := calls s; faults := faults s; tip := tip s;
     concurrentTip := concurrentTip s; genesis := genesis s;
     emitted := ev; rpcs := rpcs s |}.

Definition with_rpcs (n : nat) (s : State) : State :=
  {| store := store s; calls := calls s; faults := faults s; tip := tip s;
     concurrentTip := concurrentTip s; genesis := genesis s;
     emitted := emitted s; rpcs := n |}.

(** ** The monad of callback-style code *)

Definition M (A : Type) : Type := State -> outcome A * State.

Definition ret {A} (a : A) : M A := fun s => (Ret a, s).
Definition fail {A} (e : Error) : M A := fun s => (Err e, s).
Definition throw {A} (e : Error) : M A := fun s => (Thrown e, s).
Definition never {A} : M A := fun s => (NoCallback, s).

Definition bind {A B} (m : M A) (k : A -> M B) : M B :=
  fun s =>
    match m s with
    | (Ret a, s') => k a s'
    | (Err e, s') => (Err e, s')
    | (Thrown e, s') => (Thrown e, s')
    | (NoCallback, s') => (NoCallback, s')
    end.

Definition modify (f : State -> State) : M unit := fun s => (Ret tt, f s).
Definition gets {A} (f : State -> A) : M A := fun s => (Ret (f s), s).

(** A buffer operation that raises when it yields [None]. *)
Definition orThrow {A} (e : Error) (o : option A) : M A :=
  match o with Some a => ret a | None => throw e end.

Declare Scope async_scope.
Delimit Scope async_scope with async.
Notation "'let*' x := m 'in' k" := (bind m (fun x => k))
  (at level 10, x name, m at level 100, k at level 200) : async_scope.
Notation "m ;; k" := (bind m (fun _ => k))
  (at level 100, k at level 200, right associativity) : async_scope.

(** ** Store operations *)

(** The I/O result of the next store operation. *)
Definition next_fault (s : State) : option Error * list (option Error) :=
  match faults s with
  | [] => (None, [])
  | f :: rest => (f, rest)
  end.

(** [store.get(key, cb)]: [Ret None] stands for the [NotFoundError]. *)
Definition store_get (k : string) : M (option Buffer) :=
  fun s =>
    let '(f, rest) := next_fault s in
    let s' := with_store (store s) (calls s) rest s in
    match f with
    | Some e => (Err e, s')
    | None => (Ret (store s !! k), s')
    end.

(** [store.put(key, value, cb)]. *)
Definition store_put (k : string) (v : Buffer) : M unit :=
  fun s =>
    let '(f, rest) := next_fault s in
    let c := calls s ++ [CallPut k v] in
    match f with
    | Some e => (Err e, with_store (store s) c rest s)
    | None => (Ret tt, with_store (<[k := v]> (store s)) c rest s)
    end.

(** [store.batch(ops, cb)]: all of the operations or none. *)
Definition store_batch (ops : list Operation) : M unit :=
  fun s =>
    let '(f, rest) := next_fault s in
    let c := calls s ++ [CallBatch ops] in
    match f with
    | Some e => (Err e, with_store (store s) c rest s)
    | None => (Ret tt, with_store (apply_batch ops (store s)) c rest s)
    end.

(** [async.retry({times: n + 1}, task, cb)]: the task is run again after an
    error, [n + 1] times at most; the last error is reported. *)
Fixpoint retry {A} (n : nat) (task : M A) : M A :=
  match n with
  | O => task
  | S n' => fun s =>
      match task s with
      | (Err _, s') => retry n' task s'
      | r => r
      end
  end.

End Async.

(* ===================================================================== *)
(** * The DB service *)
(* ===================================================================== *)

Module DB.
Import Buf Async.
Local Open Scope async_scope.

(** What a block handler hands to its callback: an error, or an optional
    array of operations ([ops] may be [undefined]). A handler that is present
    is a function and what it hands over is an array: the two
    [$.checkArgument] of the gathering functions hold by typing. Handlers
    contribute to the store through the operations they return only. *)
Inductive HandlerResult :=
| HErr (e : Error)
| HOps (ops : option (list Operation)).

Definition Handler := Block -> bool -> HandlerResult.

(** A service of [node.services], with its optional handlers. *)
Record Service := mkService {
  name : string;
  blockHandler : option Handler;
  concurrentBlockHandler : option Handler;
}.

(** [this.version = 2] and [this.dbPrefix = '\u0000\u0000']. *)
Definition version : Z := 2.
Definition dbPrefix : string := String Ascii.zero (String Ascii.zero EmptyString).

Definition dquote : string := String (ascii_of_nat 34) EmptyString.

Definition helpUrl : string :=
  "https://github.com/bitpay/bitcore-node/blob/master/docs/services/db.md#how-to-reindex".

Section WithNode.
(** [this.node.services], in declaration order. *)
Variable services : list Service.
(** The order in which the handlers started by [async.each] call back. *)
Variable completion : list Service -> list Service.
(** The answer of bitcoind to the [n]-th [getBlock] call. *)
Variable bitcoind_getBlock : nat -> string -> Error + Block.
(** [this.dataPath]. *)
Variable dataPath : string.

Definition versionMessage (stored : Z) : Error :=
  "The version of the database " +:+ dquote +:+ pretty stored +:+ dquote +:+
  " does not match the expected version " +:+ dquote +:+ pretty version +:+ dquote +:+
  ". A recreation of " +:+ dquote +:+ dataPath +:+ dquote +:+
  " (can take several hours) is " +:+
  "required or to switch versions of software to match. Please see " +:+ helpUrl +:+
  " for more information.".

(** [DB.prototype._checkVersion]. *)
Definition _checkVersion : M unit :=
  let* found := store_get (dbPrefix +:+ "tip") in
  match found with
  | None =>
      (* brand new database: no version check *)
      ret tt
  | Some _ =>
      let* stored := store_get (dbPrefix +:+ "version") in
      let* v :=
        match stored with
        | None => ret 1
        | Some buffer => orThrow "RangeError" (readUInt32BE 0 buffer)
        end in
      if decide (version <> v) then fail (versionMessage v) else ret tt
  end.

(** [DB.prototype._setVersion]. *)
Definition _setVersion : M unit :=
  let* versionBuffer := orThrow "RangeError" (writeUInt32BE version) in
  store_put (dbPrefix +:+ "version") versionBuffer.

(** ** Tip operations *)

(** [DB.prototype.getTipOperation]; [None] when a buffer operation raises:
  [writeUInt32BE] of a height outside u32, or a hash that is not hex. *)
Definition getTipOperation (block : Block) (add : bool) : option Operation :=
  if add then
    heightBuffer ← writeUInt32BE (__height block);
    hashBuffer ← fromHex (hash block);
    Some {| type := put; key := dbPrefix +:+ "tip";
            value := hashBuffer ++ heightBuffer |}
  else
    heightBuffer ← writeUInt32BE (__height block - 1);
    Some {| type := put; key := dbPrefix +:+ "tip";
            value := reverse (prevHash (header block)) ++ heightBuffer |}.

(** [DB.prototype.getConcurrentTipOperation]. *)
Definition getConcurrentTipOperation (block : Block) (add : bool) : option Operation :=
  if add then
    heightBuffer ← writeUInt32BE (__height block);
    hashBuffer ← fromHex (hash block);
    Some {| type := put; key := dbPrefix +:+ "concurrentTip";
            value := hashBuffer ++ heightBuffer |}
  else
    heightBuffer ← writeUInt32BE (__height block - 1);
    Some {| type := put; key := dbPrefix +:+ "concurrentTip";
            value := reverse (prevHash (header block)) ++ heightBuffer |}.

(** ** Gathering the operations of the handlers *)

(** The iteration shared by [async.each] and [async.eachSeries] here: a
    service without the handler is skipped, an error ends the iteration,
    an array of operations is appended to [operations]. [mods] lists the
    services in the order in which they call back. *)
Fixpoint eachHandler (sel : Service -> option Handler) (block : Block) (add : bool)
    (mods : list Service) (operations : list Operation) : Error + list Operation :=
  match mods with
  | [] => inr operations
  | mod_ :: rest =>
      match sel mod_ with
      | Some handler =>
          match handler block add with
          | HErr e => inl e
          | HOps (Some ops) => eachHandler sel block add rest (operations ++ ops)
          | HOps None => eachHandler sel block add rest operations
          end
      | None => eachHandler sel block add rest operations
      end
  end.

Definition ofSum {A} (r : Error + A) : M A :=
  match r with inl e => fail e | inr a => ret a end.

(** [DB.prototype.getConcurrentBlockOperations]: [async.each] starts every
  handler; their callbacks arrive in the order [completion services]. *)
Definition getConcurrentBlockOperations (block : Block) (add : bool) : M (list Operation) :=
  ofSum (eachHandler concurrentBlockHandler block add (completion services) []).

(** [DB.prototype.getSerialBlockOperations]: [async.eachSeries] runs the
  handlers one after the other, in the order of [services]. *)
Definition getSerialBlockOperations (block : Block) (add : bool) : M (list Operation) :=
  ofSum (eachHandler blockHandler block add services []).

(** ** The block applier *)

(** [DB.prototype.connectBlock]. *)
Definition connectBlock (block : Block) : M unit :=
  let* ops := getConcurrentBlockOperations block true in
  let operations := ops in
  let* ops := getSerialBlockOperations block true in
  let operations := operations ++ ops in
  let* tipOp := orThrow "RangeError" (getTipOperation block true) in
  let operations := operations ++ [tipOp] in
  let* concurrentTipOp := orThrow "RangeError" (getConcurrentTipOperation block true) in
  let operations := operations ++ [concurrentTipOp] in
  store_batch operations.

(** [DB.prototype.disconnectBlock]. *)
Definition disconnectBlock (block : Block) : M unit :=
  let* ops := getConcurrentBlockOperations block false in
  let operations := ops in
  let* ops := getSerialBlockOperations block false in
  let operations := operations ++ ops in
  let* tipOp := orThrow "RangeError" (getTipOperation block false) in
  let operations := operations ++ [tipOp] in
  let* concurrentTipOp := orThrow "RangeError" (getConcurrentTipOperation block false) in
  let operations := operations ++ [concurrentTipOp] in
  store_batch operations.

(** ** Loading the tips *)

(** [getBlock]: delegates to bitcoind. *)
Definition getBlock (h : string) : M Block :=
  fun s =>
    let s' := with_rpcs (S (rpcs s)) s in
    match bitcoind_getBlock (rpcs s) h with
    | inl e => (Err e, s')
    | inr b => (Ret b, s')
    end.

(** [this.emit(event, block)]. *)
Definition emit (event : string) (b : Block) : M unit :=
  modify (fun s => with_emitted (emitted s ++ [(event, b)]) s).

(** [DB.prototype.loadTip]. The retry interval is a delay only. *)
Definition loadTip : M unit :=
  let* found := store_get (dbPrefix +:+ "tip") in
  match found with
  | None =>
      (* self.tip = self.genesis; self.tip.__height = 0: one object *)
      modify (fun s => let g := set_height 0 (genesis s) in with_tip (Some g) g s) ;;
      let* g := gets genesis in
      connectBlock g ;;
      emit "addblock" g ;;
      ret tt
  | Some tipData =>
      let hash := toHex (slice 0 32 tipData) in
      let* height := orThrow "RangeError" (readUInt32BE 32 tipData) in
      let* tip := retry 2 (getBlock hash) in
      modify (fun s => with_tip (Some (set_height height tip)) (genesis s) s) ;;
      ret tt
  end.

(** [DB.prototype.loadConcurrentTip]. *)
Definition loadConcurrentTip : M unit :=
  let* found := store_get (dbPrefix +:+ "concurrentTip") in
  match found with
  | None =>
      modify (fun s => let g := set_height 0 (genesis s) in
                       with_concurrentTip (Some g) g s) ;;
      (* return; *)
      never
  | Some tipData =>
      let hash := toHex (slice 0 32 tipData) in
      let* height := orThrow "RangeError" (readUInt32BE 32 tipData) in
      let* concurrentTip := retry 2 (getBlock hash) in
      modify (fun s => with_concurrentTip (Some (set_height height concurrentTip))
                         (genesis s) s) ;;
      ret tt
  end.

(** The database part of [start]: [async.series] of the version check and
    the version write, then the two tip loads. *)
Definition start : M unit :=
  _checkVersion ;;
  _setVersion ;;
  loadTip ;;
  loadConcurrentTip.

(** ** The prefix allocator *)

(** [DB.prototype.getPrefix]: the waterfall getPrefix, getUnused, putPrefix,
  putUnused. An exception raised in [putUnused] is not caught by
  [async.waterfall]: the callback is not invoked. *)
Definition getPrefix (service : string) : M Buffer :=
  (* getPrefix *)
  let* found := store_get (dbPrefix +:+ "prefix-" +:+ service) in
  match found with
  | Some buffer =>
      (* we already have the prefix, call the callback *)
      ret buffer
  | None =>
      (* getUnused *)
      let* unused := store_get (dbPrefix +:+ "nextUnused") in
      let buffer := match unused with
                    | None => [0; 1]
                    | Some buffer => buffer
                    end in
      (* putPrefix *)
      store_put (dbPrefix +:+ "prefix-" +:+ service) buffer ;;
      (* putUnused *)
      let* prefix := orThrow "RangeError" (readUInt16BE 0 buffer) in
      let* nextUnused := orThrow "RangeError" (writeUInt16BE (prefix + 1)) in
      store_put (dbPrefix +:+ "nextUnused") nextUnused ;;
      ret buffer
  end.

End WithNode.

End DB.

(* ===================================================================== *)
(** * The transaction service: the value codec *)
(* ===================================================================== *)

Module TransactionService.
Import Buf.

(** A bitcore transaction, identified by its serialization ([toBuffer], and
    [new bitcore.Transaction(buffer)] in the other direction), with the
    decorations the block handler attaches. [__timestamp] and the elements of
    [__inputValues] are JavaScript numbers, given by their binary64 bit
    patterns. *)
Record Transaction := mkTransaction {
  toBuffer : Buffer;
  __height : Z;
  __timestamp : Z;
  __inputValues : list Z;
}.

(** The loop [for (i = 0; i < inputValues.length; i++)
    inputValuesBuffer.writeDoubleBE(inputValues[i], i * 8)] over a buffer of
    [8 * inputValues.length] bytes. *)
Fixpoint writeInputValues (inputValues : list Z) : Buffer :=
  match inputValues with
  | [] => []
  | v :: rest => writeDoubleBE v ++ writeInputValues rest
  end.

(** [TransactionService.prototype._encodeTransactionValue]. [None]: a
    [RangeError] is raised by one of the integer writes. *)
Definition _encodeTransactionValue (transaction : Transaction) : option Buffer :=
  heightBuffer ← writeUInt32BE (__height transaction);
  let timestampBuffer := writeDoubleBE (__timestamp transaction) in
  let inputValues := __inputValues transaction in
  let inputValuesBuffer := writeInputValues inputValues in
  inputValuesLengthBuffer ← writeUInt16BE (Z.of_nat (length inputValues) * 8);
  Some (heightBuffer ++ timestampBuffer ++ inputValuesLengthBuffer ++
        inputValuesBuffer ++ toBuffer transaction).

(** The loop [for (i = 0; i < inputValuesLength / 8; i++)
    inputValues.push(buffer.readDoubleBE(i * 8 + 14))], with [n] iterations
    left and [i] the current index. *)
Fixpoint readInputValues (n : nat) (i : nat) (buffer : Buffer) : option (list Z) :=
  match n with
  | O => Some []
  | S n' =>
      v ← readDoubleBE (i * 8 + 14) buffer;
      rest ← readInputValues n' (S i) buffer;
      Some (v :: rest)
  end.

(** The number of indices [i >= 0] with [i < inputValuesLength / 8], the
    division being that of JavaScript numbers. *)
Definition iterations (inputValuesLength : Z) : nat :=
  Z.to_nat ((inputValuesLength + 7) / 8).

(** [TransactionService.prototype._decodeTransactionValue]. [None]: a
    [RangeError] is raised by one of the reads. *)
Definition _decodeTransactionValue (buffer : Buffer) : option Transaction :=
  height ← readUInt32BE 0 buffer;
  timestamp ← readDoubleBE 4 buffer;
  inputValuesLength ← readUInt16BE 12 buffer;
  inputValues ← readInputValues (iterations inputValuesLength) 0 buffer;
  let transaction := slice_from (length inputValues * 8 + 14) buffer in
  Some {| toBuffer := transaction; __height := height;
          __inputValues := inputValues; __timestamp := timestamp |}.

(** The decorations the claim quantifies over: a u32 height, numbers as
    64-bit patterns. *)
Definition decorated (t : Transaction) : Prop :=
  0 <= __height t < 2 ^ 32 /\
  0 <= __timestamp t < 2 ^ 64 /\
  Forall (fun v => 0 <= v < 2 ^ 64) (__inputValues t).

End TransactionService.

(* ===================================================================== *)
(** * Vocabulary of the properties *)
(* ===================================================================== *)

Module Vocabulary.
Import Buf Async DB.

(** The operations a service contributes through the handler [sel]. *)
Definition opsOf (sel : Service -> option Handler) (block : Block) (add : bool)
    (svc : Service) : list Operation :=
  match sel svc with
  | Some handler =>
      match handler block add with
      | HOps (Some ops) => ops
      | _ => []
      end
  | None => []
  end.

(** The handler [sel] of [svc] hands error [e] to its callback. *)
Definition fails (sel : Service -> option Handler) (block : Block) (add : bool)
    (svc : Service) (e : Error) : Prop :=
  exists handler, sel svc = Some handler /\ handler block add = HErr e.

Section WithNode.
Variable services : list Service.
Variable completion : list Service -> list Service.

(** Connect or disconnect, by direction. *)
Definition applyBlock (block : Block) (connect : bool) : M unit :=
  if connect then connectBlock services completion block
  else disconnectBlock services completion block.

(** The batch of a block: concurrent operations in completion order, serial
    operations in declaration order, then the two tip operations. *)
Definition batchOf (block : Block) (connect : bool) (t ct : Operation) : list Operation :=
  concat (map (opsOf concurrentBlockHandler block connect) (completion services)) ++
  concat (map (opsOf blockHandler block connect) services) ++ [t; ct].

End WithNode.

(** The keys of the allocator. *)
Abbreviation prefixKey service := (dbPrefix +:+ "prefix-" +:+ service).
Abbreviation nextUnusedKey := (dbPrefix +:+ "nextUnused").

(** The value [getUnused] passes on. *)
Definition unusedOf (m : gmap string Buffer) : Buffer :=
  match m !! nextUnusedKey with
  | None => [0; 1]
  | Some buffer => buffer
  end.

(** The state after a run of [getPrefix] for a service without a prefix,
    below exhaustion. *)
Definition allocated (service : string) (n : Z) (s : State) : State :=
  with_store
    (<[nextUnusedKey := be_bytes 2 (n + 1)]>
       (<[prefixKey service := unusedOf (store s)]> (store s)))
    (calls s ++ [CallPut (prefixKey service) (unusedOf (store s));
                 CallPut nextUnusedKey (be_bytes 2 (n + 1))])
    [] s.

(** The invariant of the allocator: the counter [n] is a u16 above every
    assigned prefix, and no prefix is assigned to two services. *)
Definition allocatorInv (n : Z) (s : State) : Prop :=
  faults s = [] /\
  1 <= n <= 65535 /\
  unusedOf (store s) = be_bytes 2 n /\
  (forall service buffer, store s !! prefixKey service = Some buffer ->
     exists j, 1 <= j < n /\ buffer = be_bytes 2 j) /\
  (forall a b buffer, store s !! prefixKey a = Some buffer ->
     store s !! prefixKey b = Some buffer -> a = b).

(** The allocator called for each name in turn; a call that fails or raises
    still leaves its writes behind. *)
Fixpoint allocate (names : list string) (s : State) : State :=
  match names with
  | [] => s
  | service :: rest => allocate rest (snd (getPrefix service s))
  end.

End Vocabulary.

(* ===================================================================== *)
(** * Concrete blocks, services and databases *)
(* ===================================================================== *)

Module TransactionSamples.
Import Buf TransactionService.

Definition sampleTransaction : Transaction :=
  {| toBuffer := [1; 0; 0; 0; 0; 0; 0; 0; 0; 0];
     __height := 7; __timestamp := 4742290407621132288;
     __inputValues := [4607182418800017408; 0] |}.

(** A transaction with 8192 inputs: every decoration is in range. *)
Definition manyInputs : Transaction :=
  {| toBuffer := [1; 0; 0; 0; 0; 0; 0; 0; 0; 0];
     __height := 7; __timestamp := 0;
     __inputValues := replicate (Z.to_nat 8192) 0 |}.

End TransactionSamples.

Module Samples.
Import Buf Async DB Vocabulary.

Definition sampleHash : Buffer :=
  [0; 0; 0; 0; 0; 25; 214; 104; 156; 8; 90; 225; 101; 131; 30; 147;
   79; 247; 99; 174; 70; 162; 166; 193; 114; 179; 241; 182; 10; 140; 226; 111].

Definition sampleBlock : Block :=
  {| hash := toHex sampleHash;
     header := {| prevHash := rev sampleHash |};
     __height := 70000 |}.

Definition sampleTip : Buffer := sampleHash ++ [0; 1; 17; 112].

Definition timestampService : Service :=
  {| name := "timestamp";
     blockHandler := Some (fun (block : Block) (add : bool) =>
       HOps (Some [ {| type := (if add then put else del) : OpType;
                       key := "ts" +:+ hash block; value := [0; 0; 0; 9] |} ]));
     concurrentBlockHandler := None |}.

Definition addressService : Service :=
  {| name := "address";
     blockHandler := None;
     concurrentBlockHandler := Some (fun (block : Block) (add : bool) =>
       HOps (Some [ {| type := (if add then put else del) : OpType;
                       key := "ad" +:+ hash block; value := [7] |} ])) |}.

Definition idleService : Service :=
  {| name := "web";
     blockHandler := Some (fun _ _ => HOps None);
     concurrentBlockHandler := None |}.

Definition sampleServices : list Service :=
  [timestampService; addressService; idleService].

(** bitcoind knows every block that is asked for. *)
Definition healthyBitcoind : nat -> string -> Error + Block :=
  fun _ h => inr {| hash := h; header := header sampleBlock; __height := 0 |}.

Definition emptyState : State :=
  {| store := ∅; calls := []; faults := []; tip := None; concurrentTip := None;
     genesis := set_height 0 sampleBlock; emitted := []; rpcs := 0 |}.

(** A database written by the first version of the service: a tip and no
    version key. *)
Definition legacyState : State :=
  {| store := {[ dbPrefix +:+ "tip" := sampleTip ]};
     calls := []; faults := []; tip := None; concurrentTip := None;
     genesis := sampleBlock; emitted := []; rpcs := 0 |}.

(** A database of the current version that has a tip record and no
    concurrent-tip record. *)
Definition serialOnlyState : State :=
  {| store := <[ dbPrefix +:+ "version" := [0; 0; 0; 2] ]>
                {[ dbPrefix +:+ "tip" := sampleTip ]};
     calls := []; faults := []; tip := None; concurrentTip := None;
     genesis := sampleBlock; emitted := []; rpcs := 0 |}.

(** A new database whose fourth store operation, the write of [nextUnused]
    of the first allocation, reports an I/O error. *)
Definition failedWriteState : State :=
  {| store := ∅; calls := [];
     faults := [None; None; None; Some "IO error: write failed"];
     tip := None; concurrentTip := None;
     genesis := genesis emptyState; emitted := []; rpcs := 0 |}.

(** A database whose counter stands at 0xFFFF. *)
Definition exhaustedState : State :=
  {| store := {[ nextUnusedKey := [255; 255] ]}; calls := []; faults := [];
     tip := None; concurrentTip := None;
     genesis := genesis emptyState; emitted := []; rpcs := 0 |}.

(** The name of the [j]-th service of a long run of allocations. *)
Definition serviceName (j : nat) : string := "service" +:+ pretty j.

(** The database after [k] services asked for a prefix, one after the other. *)
Definition afterServices (k : nat) : State :=
  allocate (map serviceName (seq 1 k)) emptyState.

End Samples.

(* ===================================================================== *)
(** * The DB service: data path and subscriptions *)
(* ===================================================================== *)

Module DBSetup.
Import Buf Async DB.



(** An event emitter, known by its identity. *)
Abbreviation Emitter := nat.

(** [this.subscriptions = {transaction: [], block: []}]. *)
Definition noSubscriptions : gmap string (list Emitter) :=
  <["transaction" := []]> (<["block" := []]> ∅).

(** [DB.prototype.subscribe]: [this.subscriptions[name].push(emitter)];
    [None]: the [TypeError] of a name that is no key of the object. *)
Definition subscribe (name : string) (emitter : Emitter)
    (subscriptions : gmap string (list Emitter)) : option (gmap string (list Emitter)) :=
  l ← subscriptions !! name;
  Some (<[name := l ++ [emitter]]> subscriptions).

(** [Array.prototype.indexOf]: the first index of [emitter], if any. *)
Fixpoint indexOf (emitter : Emitter) (l : list Emitter) : option nat :=
  match l with
  | [] => None
  | x :: rest => if decide (x = emitter) then Some O else S <$> indexOf emitter rest
  end.

(** [DB.prototype.unsubscribe]: [splice(index, 1)] when [index > -1]. *)
Definition unsubscribe (name : string) (emitter : Emitter)
    (subscriptions : gmap string (list Emitter)) : option (gmap string (list Emitter)) :=
  l ← subscriptions !! name;
  match indexOf emitter l with
  | Some index => Some (<[name := delete index l]> subscriptions)
  | None => Some subscriptions
  end.

End DBSetup.

(* ===================================================================== *)
(** * The transaction service: index, lookups and block handler *)
(* ===================================================================== *)

Module TransactionIndex.
Import Buf Async TransactionService.

(** The bytes of a key as the store sees them. The keys the DB service
    writes as strings and the keys built as buffers live in one key space. *)
Fixpoint keyOf (b : Buffer) : string :=
  match b with
  | [] => EmptyString
  | x :: rest => String (ascii_of_N (Z.to_N x)) (keyOf rest)
  end.

(** What bitcore reads in the serialization of a transaction: its id (a hex
    string), its inputs, its outputs, and whether it is a coinbase. The
    amount of an output is a JavaScript number, given by its bit pattern. *)
Record Input := mkInput { prevTxId : Buffer; outputIndex : nat }.
Record Output := mkOutput { satoshis : Z }.
Record Parsed := mkParsed {
  id : string;
  inputs : list Input;
  outputs : list Output;
  isCoinbase : bool;
}.

(** An entry of [this._mempool]: [true], stored for the ids bitcoind lists
    at start, or the transaction of a [bitcoind/rawtransaction] event, which
    carries no decoration. *)
Inductive MempoolEntry :=
| Listed
| Received (raw : Buffer).

(** The fields of the service: [this.prefix], [this._mempool] and
    [this.currentTransactions]. *)
Record Index := mkIndex {
  prefix : Buffer;
  _mempool : gmap string MempoolEntry;
  currentTransactions : gmap string Transaction;
}.

Definition with_current (c : gmap string Transaction) (self : Index) : Index :=
  {| prefix := prefix self; _mempool := _mempool self; currentTransactions := c |}.

Definition with_mempool (p : gmap string MempoolEntry) (self : Index) : Index :=
  {| prefix := prefix self; _mempool := p; currentTransactions := currentTransactions self |}.

Definition with_prefix (b : Buffer) (self : Index) : Index :=
  {| prefix := b; _mempool := _mempool self; currentTransactions := currentTransactions self |}.

(** What [getTransaction] hands to its callback: a decorated transaction
    (of the current block, or decoded from the store), an undecorated one
    from the mempool, or the mempool's [true]. *)
Inductive Found :=
| FoundTransaction (tx : Transaction)
| FoundUndecorated (raw : Buffer)
| FoundTrue.

(** [tx.__timestamp = ...; tx.__height = ...; tx.__inputValues = ...]. *)
Definition decorate (tx : Transaction) (height timestamp : Z) (inputValues : list Z)
    : Transaction :=
  {| toBuffer := toBuffer tx; __height := height;
     __timestamp := timestamp; __inputValues := inputValues |}.

(** [TransactionService.prototype._encodeTransactionKey]; [None]: the id is
    not a hex string. *)
Definition _encodeTransactionKey (self : Index) (txid : string) : option Buffer :=
  h ← fromHex txid;
  Some (prefix self ++ h).

(** [TransactionService.prototype._decodeTransactionKey]. *)
Definition _decodeTransactionKey (buffer : Buffer) : string :=
  toHex (slice_from 2 buffer).

(** [TransactionService.prototype.getTransaction], on the contents [m] of
    the store; a missing key is the only error of the store considered. *)
Definition getTransaction (self : Index) (m : gmap string Buffer) (txid : string)
    (queryMempool : bool) : outcome Found :=
  match currentTransactions self !! txid with
  | Some tx => Ret (FoundTransaction tx)
  | None =>
      match (if queryMempool then _mempool self !! txid else None) with
      | Some (Received raw) => Ret (FoundUndecorated raw)
      | Some Listed => Ret FoundTrue
      | None =>
          match _encodeTransactionKey self txid with
          | None => Thrown "TypeError"
          | Some key =>
              match m !! keyOf key with
              | None => Err "NotFoundError"
              | Some buffer =>
                  match _decodeTransactionValue buffer with
                  | None => Thrown "RangeError"
                  | Some tx => Ret (FoundTransaction tx)
                  end
              end
          end
      end
  end.

(** The values of a list of lookups that all succeeded. *)
Fixpoint collect (results : list (outcome Z)) : option (list Z) :=
  match results with
  | [] => Some []
  | Ret v :: rest => vs ← collect rest; Some (v :: vs)
  | _ :: _ => None
  end.

Definition failed (o : outcome Z) : bool :=
  match o with Ret _ => false | _ => true end.

Section WithLibraries.
(** bitcore: the fields of the transaction with a given serialization. *)
Variable parse : Buffer -> Parsed.
(** The timestamp service: [getTimestamp(hash)]. *)
Variable getTimestamp : string -> Error + Z.
(** [block.transactions]. *)
Variable transactions : Block -> list Transaction.
(** Among the lookups of [async.mapLimit] that do not succeed, the one that
    ends first. *)
Variable race : list (outcome Z) -> outcome Z.

(** [async.mapLimit]: the values in the order of the inputs when every
    lookup succeeds; otherwise what the first lookup to fail reports. *)
Definition mapLimit (results : list (outcome Z)) : outcome (list Z) :=
  match collect results with
  | Some values => Ret values
  | None =>
      match race (filter (fun o => failed o = true) results) with
      | Err e => Err e
      | Thrown e => Thrown e
      | _ => NoCallback
      end
  end.

(** The iteratee of [_getInputValues]: the amount of the output an input
    spends. [prevTx.outputs] of the mempool's [true] would raise, but the
    mempool is not asked here. *)
Definition inputValue (self : Index) (m : gmap string Buffer) (input : Input)
    : outcome Z :=
  match getTransaction self m (toHex (prevTxId input)) false with
  | Ret (FoundTransaction prevTx) =>
      match outputs (parse (toBuffer prevTx)) !! outputIndex input with
      | None => Err "Input did not have utxo."
      | Some output => Ret (satoshis output)
      end
  | Ret (FoundUndecorated raw) =>
      match outputs (parse raw) !! outputIndex input with
      | None => Err "Input did not have utxo."
      | Some output => Ret (satoshis output)
      end
  | Ret FoundTrue => Thrown "TypeError"
  | Err e => Err e
  | Thrown e => Thrown e
  | NoCallback => NoCallback
  end.

(** [TransactionService.prototype._getInputValues]. *)
Definition _getInputValues (self : Index) (m : gmap string Buffer) (tx : Transaction)
    : outcome (list Z) :=
  if isCoinbase (parse (toBuffer tx)) then Ret []
  else mapLimit (map (inputValue self m) (inputs (parse (toBuffer tx)))).

(** The [async.eachSeries] of [blockHandler] over the transactions still to
    handle; [self] carries [currentTransactions]. *)
Fixpoint eachTransaction (action : OpType) (height timestamp : Z)
    (m : gmap string Buffer) (txs : list Transaction) (self : Index)
    (operations : list Operation) : outcome (list Operation) * Index :=
  match txs with
  | [] => (Ret operations, self)
  | tx :: rest =>
      match _getInputValues self m tx with
      | Ret inputValues =>
          let tx' := decorate tx height timestamp inputValues in
          let txid := id (parse (toBuffer tx')) in
          let self' := with_current (<[txid := tx']> (currentTransactions self)) self in
          match _encodeTransactionKey self' txid with
          | None => (Thrown "TypeError", self')
          | Some key =>
              match _encodeTransactionValue tx' with
              | None => (Thrown "RangeError", self')
              | Some value =>
                  eachTransaction action height timestamp m rest self'
                    (operations ++ [ {| type := action; key := keyOf key; value := value |} ])
              end
          end
      | Err e => (Err e, self)
      | Thrown e => (Thrown e, self)
      | NoCallback => (NoCallback, self)
      end
  end.

(** [TransactionService.prototype.blockHandler], on the contents [m] of the
    store: the outcome handed to the callback and the service afterwards. *)
Definition blockHandler (self : Index) (m : gmap string Buffer) (block : Block)
    (connectBlock : bool) : outcome (list Operation) * Index :=
  let action := if connectBlock then put else del in
  let self := with_current ∅ self in
  match getTimestamp (hash block) with
  | inl e => (Err e, self)
  | inr timestamp =>
      eachTransaction action (Async.__height block) timestamp m (transactions block) self []
  end.

(** The listener of [bitcoind/rawtransaction]. *)
Definition rawTransaction (raw : Buffer) (self : Index) : Index :=
  with_mempool (<[id (parse raw) := Received raw]> (_mempool self)) self.

End WithLibraries.

(** [TransactionService.prototype.start]: the ids of bitcoind's mempool are
    recorded as [true], then the prefix of the service is obtained from the
    DB service. [mempool] is the answer of [bitcoind.getMempool]. *)
Definition start (serviceName : string) (mempool : Error + list string) (self : Index)
    (s : State) : outcome unit * Index * State :=
  match mempool with
  | inl e => (Err e, self, s)
  | inr txs =>
      let self1 :=
        with_mempool (fold_left (fun p txid => <[txid := Listed]> p) txs (_mempool self)) self in
      match DB.getPrefix serviceName s with
      | (Ret b, s') => (Ret tt, with_prefix b self1, s')
      | (Err e, s') => (Err e, self1, s')
      | (Thrown e, s') => (Thrown e, self1, s')
      | (NoCallback, s') => (NoCallback, self1, s')
      end
  end.

End TransactionIndex.

(* ===================================================================== *)
(** * Vocabulary of the properties of the transaction index *)
(* ===================================================================== *)

Module IndexVocabulary.
Import Buf Async TransactionService TransactionIndex.

(** The same operation as a deletion. *)
Definition asDel (op : Operation) : Operation :=
  {| type := del; key := key op; value := value op |}.

Section WithLibraries.
Variable parse : Buffer -> Parsed.
Variable race : list (outcome Z) -> outcome Z.

(** Every input of [tx] spends an output of a transaction of [before], or
    of a transaction already in [currentTransactions]; a coinbase spends
    nothing. *)
Definition spendsCached (self : Index) (before : list Transaction) (tx : Transaction)
    : Prop :=
  isCoinbase (parse (toBuffer tx)) = true \/
  forall input, input ∈ inputs (parse (toBuffer tx)) ->
    is_Some (currentTransactions self !! toHex (prevTxId input)) \/
    exists prev, prev ∈ before /\ id (parse (toBuffer prev)) = toHex (prevTxId input).

(** The operation [op] is what the handler builds for [tx]. *)
Definition built (self : Index) (action : OpType) (height timestamp : Z)
    (m : gmap string Buffer) (tx : Transaction) (op : Operation) : Prop :=
  type op = action /\
  (exists h, fromHex (id (parse (toBuffer tx))) = Some h /\
             key op = keyOf (prefix self ++ h)) /\
  exists cache inputValues,
    _getInputValues parse race (with_current cache self) m tx = Ret inputValues /\
    _encodeTransactionValue (decorate tx height timestamp inputValues) = Some (value op).

(** The operation [op] indexes [tx]: its key is the prefix and the bytes of
    the id; its value decodes to the bytes of [tx] with the height and the
    timestamp given, and one amount for each input. *)
Definition indexes (self : Index) (action : OpType) (height timestamp : Z)
    (tx : Transaction) (op : Operation) : Prop :=
  type op = action /\
  (exists h, fromHex (id (parse (toBuffer tx))) = Some h /\
             key op = keyOf (prefix self ++ h)) /\
  exists inputValues,
    _decodeTransactionValue (value op) = Some (decorate tx height timestamp inputValues) /\
    length inputValues =
      (if isCoinbase (parse (toBuffer tx)) then 0%nat
       else length (inputs (parse (toBuffer tx)))).

End WithLibraries.

End IndexVocabulary.

Module IndexSamples.
Import Buf Async TransactionService TransactionIndex.

(** Two transactions, by their serializations: a coinbase, and a
    transaction that spends its only output. *)
Definition coinbaseRaw : Buffer := [1; 0; 0; 0; 1; 255; 255; 81].
Definition spendRaw : Buffer := [1; 0; 0; 0; 1; 74; 94; 30; 2].

Definition coinbaseId : Buffer :=
  [74; 94; 30; 75; 170; 184; 159; 58; 50; 81; 138; 136; 195; 27; 200; 127;
   97; 143; 118; 103; 62; 44; 199; 122; 178; 18; 123; 122; 253; 237; 163; 59].

Definition spendId : Buffer :=
  [14; 62; 35; 87; 232; 6; 185; 205; 177; 245; 183; 11; 84; 195; 163; 241;
   113; 35; 9; 43; 55; 196; 235; 173; 199; 187; 79; 140; 27; 210; 98; 128].

Definition sampleParse (raw : Buffer) : Parsed :=
  if decide (raw = coinbaseRaw) then
    {| id := toHex coinbaseId; inputs := [];
       outputs := [ {| satoshis := 4752439791172648960 |} ]; isCoinbase := true |}
  else if decide (raw = spendRaw) then
    {| id := toHex spendId;
       inputs := [ {| prevTxId := coinbaseId; outputIndex := 0 |} ];
       outputs := [ {| satoshis := 4742290407621132288 |};
                    {| satoshis := 4751297606875873280 |} ];
       isCoinbase := false |}
  else
    {| id := EmptyString; inputs := []; outputs := []; isCoinbase := true |}.

(** A transaction as it comes with a block, before the index decorates it. *)
Definition undecorated (raw : Buffer) : Transaction :=
  {| toBuffer := raw; __height := 0; __timestamp := 0; __inputValues := [] |}.

Definition sampleTransactions (block : Block) : list Transaction :=
  [undecorated coinbaseRaw; undecorated spendRaw].

Definition sampleTimestamps (blockHash : string) : Error + Z :=
  inr 4788187109533745152.

(** The failing lookup that is listed first reports first. *)
Definition firstToFail (results : list (outcome Z)) : outcome Z :=
  match results with
  | o :: _ => o
  | [] => NoCallback
  end.

Definition sampleIndex : Index :=
  {| prefix := [0; 1]; _mempool := ∅; currentTransactions := ∅ |}.

(** The transaction service as the DB service sees it, its block handler
    reading the contents [m] of the store. *)
Definition transactionService (m : gmap string Buffer) : DB.Service :=
  {| DB.name := "transaction";
     DB.blockHandler := Some (fun (block : Block) (add : bool) =>
       match fst (blockHandler sampleParse sampleTimestamps sampleTransactions
                    firstToFail sampleIndex m block add) with
       | Ret ops => DB.HOps (Some ops)
       | Err e => DB.HErr e
       | _ => DB.HOps None
       end);
     DB.concurrentBlockHandler := None |}.

(** The database after the sample block was connected to an empty one. *)
Definition indexedState : State :=
  snd (DB.connectBlock [transactionService ∅; Samples.timestampService] (@rev DB.Service)
         Samples.sampleBlock Samples.emptyState).

(** The database after the sample block was disconnected again. *)
Definition rewoundState : State :=
  snd (DB.disconnectBlock
         [transactionService (store indexedState); Samples.timestampService]
         (@rev DB.Service) Samples.sampleBlock indexedState).

(** The ids bitcoind lists for its mempool at start. *)
Definition sampleMempool : list string := [toHex spendId; toHex coinbaseId].

End IndexSamples.

Module StartSamples.
Import Buf Async DB Vocabulary Samples.

(** A database of the current version with both tip records. *)
Definition syncedState : State :=
  {| store := <[ dbPrefix +:+ "concurrentTip" := sampleTip ]>
                (<[ dbPrefix +:+ "version" := [0; 0; 0; 2] ]>
                   {[ dbPrefix +:+ "tip" := sampleTip ]});
     calls := []; faults := []; tip := None; concurrentTip := None;
     genesis := sampleBlock; emitted := []; rpcs := 0 |}.

(** A database whose tip record lost its height: the 32 bytes of the hash
    only. *)
Definition truncatedTipState : State :=
  {| store := {[ dbPrefix +:+ "tip" := sampleHash ]};
     calls := []; faults := []; tip := None; concurrentTip := None;
     genesis := sampleBlock; emitted := []; rpcs := 0 |}.

(** bitcoind fails on the first two calls and serves every block after. *)
Definition recoveringBitcoind : nat -> string -> Error + Block :=
  fun n h =>
    match n with
    | O | S O => inl "Block not found"
    | _ => inr {| hash := h; header := header sampleBlock; __height := 0 |}
    end.


(** A new database whose first store operation reports an I/O error. *)
Definition unreadableState : State :=
  {| store := ∅; calls := []; faults := [Some "IO error: read failed"];
     tip := None; concurrentTip := None;
     genesis := genesis emptyState; emitted := []; rpcs := 0 |}.

End StartSamples.

(* ===================================================================== *)
(** * Starting a node from the command line *)
(* ===================================================================== *)

Module Scaffold.
Import Async.

(** What the code reads of a value that was thrown or handed to a callback
    as an error: its [code], its [message], its [stack] when it has one, and
    the string it becomes in a concatenation. *)
Record Exception := mkException {
  code : option string;
  message : string;
  stack : option string;
  shown : string;
}.

Inductive Level := info | error.
Inductive LogArg := Text (text : string) | Value (e : Exception).

(** ** Loading the modules of the services *)

(** What [require] returns, as far as the loader looks: [undefined],
    [null], another falsy value, or a value with the properties
    [prototype] (with [start] and [stop]), [dependencies] and, for a
    [package.json], [bitcoreNode]; a flag tells whether the property is
    there and truthy. *)
Record Prototype := mkPrototype { hasStart : bool; hasStop : bool }.

Inductive Code :=
| Undefined
| Null
| Falsy
| Object (prototype : option Prototype) (dependencies : bool) (bitcoreNode : option string).

Definition truthy (v : Code) : bool :=
  match v with Object _ _ _ => true | _ => false end.

(** The configuration of a service; [None] is an absent or empty string. *)
Record ServiceConfig := mkServiceConfig {
  requirePath : option string;
  cwdRequirePath : option string;
}.

Record Service := mkService {
  name : string;
  config : ServiceConfig;
  module : Code;
}.

Record Config := mkConfig {
  services : option (list string);
  servicesConfig : option (gmap string ServiceConfig);
}.

(** A [string] of this module is a JavaScript string whose code units are
    all below 256 (ASCII and Latin-1 text), with one [ascii] for each code
    unit; it is not a sequence of bytes of an encoding. Strings with other
    characters are outside the model. *)
Definition codeUnit (c : ascii) : N := N_of_ascii c.

(** The code units that [.] does not match: the line terminators U+000A,
    U+000D, U+2028 and U+2029. *)
Definition lineTerminator (unit : N) : bool :=
  bool_decide (unit ∈ [10; 13; 8232; 8233]%N).

(** [/.js$/] matches the whole of [s]: one code unit that is no line
    terminator, then [js], then the end. *)
Definition matchesJs (s : string) : bool :=
  match s with
  | String c (String j (String s' EmptyString)) =>
      negb (lineTerminator (codeUnit c)) &&
      bool_decide (j = "j"%char) && bool_decide (s' = "s"%char)
  | _ => false
  end.

(** [s.replace(/.js$/, '')]: the leftmost match is removed. *)
Fixpoint stripJs (s : string) : string :=
  if matchesJs s then EmptyString
  else
    match s with
    | EmptyString => EmptyString
    | String c rest => String c (stripJs rest)
    end.

(** The outcome of a function that logs and may throw an [Error], given by
    its message. *)
Definition Logged (A : Type) : Type := (Error + A) * list (Level * list LogArg).

Section WithNode.
(** [require], [fs.statSync(p).isDirectory()], [path.resolve],
    [process.cwd()] and [__dirname]. *)
Variable req : string -> Exception + Code.
Variable isDirectory : string -> Exception + bool.
Variable resolve : string -> string -> string.
Variable cwd : string.
Variable dirname : string.

Definition requirePathMessage (e : Exception) : string :=
  "Checked the service's requirePath value, " +:+
  "but could not find the service, checking elsewhere. " +:+
  "Error caught: " +:+ message e.

(** [lookInRequirePathConfig]. *)
Definition lookInRequirePathConfig (service : Service)
    : Code * list (Level * list LogArg) :=
  match requirePath (config service) with
  | None => (Undefined, [])
  | Some p =>
      match isDirectory p with
      | inl e => (Undefined, [(info, [Text (requirePathMessage e)])])
      | inr true =>
          match req p with
          | inl e => (Undefined, [(info, [Text (requirePathMessage e)])])
          | inr v => (v, [])
          end
      | inr false =>
          match req (stripJs p) with
          | inl e => (Undefined, [(info, [Text (requirePathMessage e)])])
          | inr v => (v, [])
          end
      end
  end.

(** The [catch] of [lookInCwd] and [lookInBuiltInPath]. *)
Definition notFound (e : Exception) (text : string) : list (Level * list LogArg) :=
  (if bool_decide (code e <> Some "MODULE_NOT_FOUND") then [(error, [Value e])] else []) ++
  [(info, [Text text])].

(** [lookInCwd]. *)
Definition lookInCwd (service : Service) : Code * list (Level * list LogArg) :=
  let location :=
    match cwdRequirePath (config service) with
    | Some p => p
    | None => name service
    end in
  match req (cwd +:+ "/" +:+ location) with
  | inr v => (v, [])
  | inl e =>
      (Undefined,
       notFound e ("Checked the current working directory for service: " +:+ location))
  end.

(** [lookInBuiltInPath]. *)
Definition lookInBuiltInPath (service : Service) : Code * list (Level * list LogArg) :=
  let serviceFile := resolve dirname ("../services/" +:+ name service) in
  match req serviceFile with
  | inr v => (v, [])
  | inl e =>
      (Undefined,
       notFound e ("Checked the built-in path: lib/services, for service: " +:+ name service))
  end.

(** [lookInModuleManifest]; reading a property of [undefined] or [null]
    raises, and the [catch] logs. *)
Definition lookInModuleManifest (service : Service) : Code * list (Level * list LogArg) :=
  let checked :=
    [(info, [Text ("Checked the module's package.json for service: " +:+ name service)])] in
  match req (name service +:+ "/package.json") with
  | inl e => (Undefined, checked)
  | inr Undefined | inr Null => (Undefined, checked)
  | inr Falsy => (Undefined, [])
  | inr (Object _ _ None) => (Undefined, [])
  | inr (Object _ _ (Some field)) =>
      match req (name service +:+ "/" +:+ field) with
      | inl e => (Undefined, checked)
      | inr v => (v, [])
      end
  end.

(** [if (!serviceCode) serviceCode = next(req, service)]. *)
Definition orElse (found : Code * list (Level * list LogArg))
    (next : Service -> Code * list (Level * list LogArg)) (service : Service)
    : Code * list (Level * list LogArg) :=
  if truthy (fst found) then found
  else (fst (next service), snd found ++ snd (next service)).

Definition notLoaded (service : Service) : Error :=
  "Attempted to load the " +:+ name service +:+ " service from: " +:+
  "the requirePath in the services' config, then " +:+ DB.dquote +:+
  cwd +:+ DB.dquote +:+ " then from: " +:+ DB.dquote +:+ dirname +:+ "/../lib/services" +:+
  DB.dquote +:+ " finally from: " +:+ DB.dquote +:+
  cwd +:+ "/package.json" +:+ DB.dquote +:+
  " - bitcoreNode field. All paths failed to find valid nodeJS code.".

(** [loadModule]. *)
Definition loadModule (service : Service) : Logged Service :=
  let found :=
    orElse (orElse (orElse (lookInRequirePathConfig service) lookInCwd service)
              lookInBuiltInPath service)
      lookInModuleManifest service in
  if truthy (fst found) then
    (inr {| name := name service; config := config service; module := fst found |},
     snd found)
  else (inl (notLoaded service), snd found).

Definition notSupported (service : Service) : Error :=
  "Could not load service " +:+ DB.dquote +:+ name service +:+ DB.dquote +:+
  " as it does not support necessary methods and properties.".

(** The test of [checkService]. *)
Definition supported (v : Code) : bool :=
  match v with
  | Object (Some p) true _ => hasStart p && hasStop p
  | _ => false
  end.

(** [checkService]. *)
Definition checkService (service : Service) : Error + unit :=
  if supported (module service) then inr tt else inl (notSupported service).

(** The loop of [setupServices] over the names still to load. *)
Fixpoint eachService (config : Config) (names : list string) (loaded : list Service)
    : Logged (list Service) :=
  match names with
  | [] => (inr loaded, [])
  | serviceName :: rest =>
      let serviceConfig :=
        match servicesConfig config with
        | Some table =>
            match table !! serviceName with
            | Some c => c
            | None => {| requirePath := None; cwdRequirePath := None |}
            end
        | None => {| requirePath := None; cwdRequirePath := None |}
        end in
      match loadModule {| name := serviceName; config := serviceConfig;
                          module := Undefined |} with
      | (inl e, logs) => (inl e, logs)
      | (inr service, logs) =>
          match checkService service with
          | inl e => (inl e, logs)
          | inr _ =>
              let '(r, logs') := eachService config rest (loaded ++ [service]) in
              (r, logs ++ logs')
          end
      end
  end.

(** [setupServices]; the path added to [module.paths] is part of what
    [require] finds. *)
Definition setupServices (config : Config) : Logged (list Service) :=
  match services config with
  | Some names => eachService config names []
  | None => (inr [], [])
  end.

End WithNode.

(** ** Shutting down *)

(** What a handler does to the process and the node: it logs, it asks the
    process to exit, it asks the node to stop and says what it does when the
    node has stopped or failed to. *)
#[warnings="-register-all"] Inductive Effect :=
| Log (level : Level) (args : list LogArg)
| Exit (exitCode : Z)
| Stop (callback : option Exception -> list Effect).

(** [cleanShutdown]. *)
Definition cleanShutdown : list Effect :=
  [Stop (fun err =>
     match err with
     | Some e => [Log error [Text ("Failed to stop services: " +:+ shown e)]; Exit 1]
     | None => [Log info [Text "Halted"]; Exit 0]
     end)].

Record Options := mkOptions { exit : bool; sigint : bool }.

(** [exitHandler]; [shuttingDown] is the variable of the module. *)
Definition exitHandler (options : Options) (err : option Exception) (shuttingDown : bool)
    : list Effect * bool :=
  let onError :=
    match err with
    | Some e =>
        [Log error [Text "uncaught exception:"; Value e]] ++
        match stack e with
        | Some trace => [Log error [Text trace]]
        | None => []
        end ++
        [Stop (fun err' =>
           match err' with
           | Some e' => [Log error [Text ("Failed to stop services: " +:+ shown e')]]
           | None => []
           end ++ [Exit (-1)])]
    | None => []
    end in
  if sigint options then
    if shuttingDown then (onError, shuttingDown)
    else (onError ++ cleanShutdown, true)
  else (onError, shuttingDown).

(** The events [registerExitHandlers] listens to, with the first argument
    the process hands to the listener ([None]: none, or a falsy one). *)
Inductive ProcessEvent :=
| uncaughtException (err : option Exception)
| SIGINT (arg : option Exception).

(** The listeners of [registerExitHandlers]. *)
Definition registerExitHandlers (event : ProcessEvent) : bool -> list Effect * bool :=
  match event with
  | uncaughtException err => exitHandler {| exit := true; sigint := false |} err
  | SIGINT arg => exitHandler {| exit := false; sigint := true |} arg
  end.

(** A run of events reaching the listeners, as long as the process lives. *)
Fixpoint deliver (events : list ProcessEvent) (shuttingDown : bool) : list Effect * bool :=
  match events with
  | [] => ([], shuttingDown)
  | event :: rest =>
      let '(effects, flag) := registerExitHandlers event shuttingDown in
      let '(effects', flag') := deliver rest flag in
      (effects ++ effects', flag')
  end.

(** The stop requests among some effects. *)
Definition stops (effects : list Effect) : list (option Exception -> list Effect) :=
  omap (fun effect => match effect with Stop callback => Some callback | _ => None end)
    effects.


Definition raised (event : ProcessEvent) : bool :=
  match event with
  | uncaughtException (Some _) | SIGINT (Some _) => true
  | _ => false
  end.

Definition interrupt (event : ProcessEvent) : bool :=
  match event with SIGINT _ => true | _ => false end.

(** The number of events that carry an error. *)
Definition errors (events : list ProcessEvent) : nat :=
  length (List.filter raised events).

End Scaffold.

Module ScaffoldSamples.
Import Scaffold.

Definition missing (path : string) : Exception :=
  {| code := Some "MODULE_NOT_FOUND"; message := "Cannot find module " +:+ path;
     stack := None; shown := "Error: Cannot find module " +:+ path |}.

(** An installation with two built-in services and one service of the
    project in [/srv/project/insight]. *)
Definition sampleRequire (path : string) : Exception + Code :=
  if bool_decide (path ∈ ["/opt/node/lib/scaffold/../services/bitcoind";
                          "/opt/node/lib/scaffold/../services/web";
                          "/srv/project/insight"])
  then inr (Object (Some {| hasStart := true; hasStop := true |}) true None)
  else if bool_decide (path = "/srv/project/plugin")
  then inr (Object None false None)
  else inl (missing path).

Definition sampleIsDirectory (path : string) : Exception + bool :=
  if bool_decide (path = "/srv/project") then inr true
  else if bool_decide (path = "/srv/project/plugin.js") then inr false
  else inl (missing path).

Definition sampleResolve (from to : string) : string := from +:+ "/" +:+ to.

Definition sampleConfig : Config :=
  {| services := Some ["bitcoind"; "insight"; "web"]; servicesConfig := None |}.


End ScaffoldSamples.

(* ===================================================================== *)
(** * Properties of buffers *)
(* ===================================================================== *)

Module BufFacts.
Import Buf.

Lemma be_value_snoc b x : be_value (b ++ [x]) = be_value b * 256 + x.
Proof. unfold be_value. by rewrite fold_left_app. Qed.

Lemma length_be_bytes n v : length (be_bytes n v) = n.
Proof.
  revert v. induction n as [|n IH]; intros v; simpl; [done|].
  rewrite length_app, IH. simpl. lia.
Qed.

Lemma be_bytes_wf n v : wf (be_bytes n v).
Proof.
  revert v. induction n as [|n IH]; intros v; simpl.
  - constructor.
  - apply Forall_app. split; [apply IH|].
    constructor; [|constructor]. unfold is_byte. apply Z.mod_pos_bound. lia.
Qed.

Lemma be_value_be_bytes n v : be_value (be_bytes n v) = v mod 256 ^ Z.of_nat n.
Proof.
  revert v. induction n as [|n IH]; intros v.
  - simpl. by rewrite Z.mod_1_r.
  - cbn [be_bytes]. rewrite be_value_snoc, IH.
    rewrite Nat2Z.inj_succ, Z.pow_succ_r by lia.
    rewrite (Z.rem_mul_r v 256 (256 ^ Z.of_nat n)) by lia. lia.
Qed.

Lemma be_roundtrip n v :
  0 <= v < 256 ^ Z.of_nat n -> be_value (be_bytes n v) = v.
Proof. intros Hv. rewrite be_value_be_bytes. by apply Z.mod_small. Qed.

Lemma writeUIntBE_Some n v :
  0 <= v < 256 ^ Z.of_nat n -> writeUIntBE n v = Some (be_bytes n v).
Proof.
  intros [H0 H1]. unfold writeUIntBE.
  apply Z.leb_le in H0. apply Z.ltb_lt in H1. by rewrite H0, H1.
Qed.

Lemma writeUIntBE_None n v :
  256 ^ Z.of_nat n <= v \/ v < 0 -> writeUIntBE n v = None.
Proof.
  intros H. unfold writeUIntBE.
  destruct (0 <=? v) eqn:E0; [|done].
  destruct (v <? 256 ^ Z.of_nat n) eqn:E1; [|done].
  apply Z.leb_le in E0. apply Z.ltb_lt in E1. lia.
Qed.

Lemma writeUIntBE_inv n v b :
  writeUIntBE n v = Some b -> 0 <= v < 256 ^ Z.of_nat n /\ b = be_bytes n v.
Proof.
  unfold writeUIntBE.
  destruct (0 <=? v) eqn:E0; [|done].
  destruct (v <? 256 ^ Z.of_nat n) eqn:E1; [|done].
  apply Z.leb_le in E0. apply Z.ltb_lt in E1. intros [= <-]. done.
Qed.

(** Reading [n] bytes back right after a prefix [p]. *)
Lemma readUIntBE_app n p v rest :
  0 <= v < 256 ^ Z.of_nat n ->
  readUIntBE n (length p) (p ++ be_bytes n v ++ rest) = Some v.
Proof.
  intros Hv. unfold readUIntBE.
  rewrite decide_True by (rewrite !length_app, length_be_bytes; lia).
  rewrite drop_app_length.
  rewrite take_app_length' by (by rewrite length_be_bytes).
  by rewrite be_roundtrip.
Qed.

Lemma readUIntBE_0 n v rest :
  0 <= v < 256 ^ Z.of_nat n ->
  readUIntBE n 0 (be_bytes n v ++ rest) = Some v.
Proof. intros Hv. by apply (readUIntBE_app n [] v rest). Qed.

Lemma hex_digit_value n : 0 <= n < 16 -> hex_value (hex_digit n) = Some n.
Proof.
  intros Hn. rewrite <- (Z2Nat.id n) by lia.
  assert (Z.to_nat n < 16)%nat as Hk by lia.
  clear Hn. revert Hk. generalize (Z.to_nat n). intros k Hk.
  do 16 (destruct k as [|k]; [reflexivity|]). lia.
Qed.

Lemma fromHex_toHex b : wf b -> fromHex (toHex b) = Some b.
Proof.
  induction 1 as [|x b Hx _ IH]; [done|].
  cbn [toHex fromHex]. unfold is_byte in Hx.
  rewrite !hex_digit_value, IH.
  - f_equal. f_equal. symmetry. rewrite Z.mul_comm. apply Z.div_mod. lia.
  - apply Z.mod_pos_bound. lia.
  - split; [apply Z.div_pos; lia | apply Z.div_lt_upper_bound; lia].
Qed.

Lemma wf_app b1 b2 : wf b1 -> wf b2 -> wf (b1 ++ b2).
Proof. intros H1 H2. apply Forall_app. done. Qed.

Lemma readUIntBE_at n off p v rest :
  length p = off -> 0 <= v < 256 ^ Z.of_nat n ->
  readUIntBE n off (p ++ be_bytes n v ++ rest) = Some v.
Proof. intros <- Hv. by apply readUIntBE_app. Qed.

End BufFacts.

(* ===================================================================== *)
(** * Properties of the transaction-record codec *)
(* ===================================================================== *)

Module TransactionFacts.
Import Buf BufFacts TransactionService TransactionSamples.

Lemma length_writeInputValues vs :
  length (writeInputValues vs) = (length vs * 8)%nat.
Proof.
  induction vs as [|v vs IH]; [done|].
  cbn [writeInputValues length]. unfold writeDoubleBE.
  rewrite length_app, length_be_bytes, IH. lia.
Qed.

(** The read loop recovers what the write loop stored, wherever the values
    start, provided the index and the offset agree. *)
Lemma readInputValues_written vs : forall i p rest,
  length p = (i * 8 + 14)%nat ->
  Forall (fun v => 0 <= v < 2 ^ 64) vs ->
  readInputValues (length vs) i (p ++ writeInputValues vs ++ rest) = Some vs.
Proof.
  induction vs as [|v vs IH]; intros i p rest Hp Hvs; [done|].
  apply Forall_cons in Hvs as [Hv Hvs].
  cbn [length readInputValues writeInputValues]. unfold readDoubleBE, writeDoubleBE.
  rewrite <- (app_assoc (be_bytes 8 v)).
  rewrite (readUIntBE_at 8 _ p v) by (done || (change (256 ^ Z.of_nat 8) with (2 ^ 64); lia)).
  cbn [mbind option_bind].
  rewrite (app_assoc p).
  rewrite IH; [done| |done].
  rewrite length_app, length_be_bytes. lia.
Qed.

Lemma iterations_bytes n : iterations (Z.of_nat n * 8) = n.
Proof.
  unfold iterations.
  replace ((Z.of_nat n * 8 + 7) / 8) with (Z.of_nat n); [lia|].
  apply Z.div_unique with (r := 7); lia.
Qed.

(** C7, as amended. For every transaction decorated with a u32 [__height], a
    [__timestamp] and a list of at most 8191 [__inputValues] (the byte length
    of the list is stored in 16 bits), [_encodeTransactionValue] returns a
    buffer, and [_decodeTransactionValue] applied to it yields the same
    transaction bytes, the same [__height], the same [__timestamp] and the
    same [__inputValues]. *)
Theorem transaction_value_roundtrip (t : Transaction) :
  decorated t ->
  Z.of_nat (length (__inputValues t)) <= 8191 ->
  exists b, _encodeTransactionValue t = Some b /\
            _decodeTransactionValue b = Some t.
Proof.
  intros (Hh & Ht & Hvs) Hlen.
  destruct t as [raw h ts vs]; cbn [__height __timestamp __inputValues] in *.
  unfold _encodeTransactionValue; cbn [__height __timestamp __inputValues toBuffer].
  unfold writeUInt32BE, writeUInt16BE.
  rewrite (writeUIntBE_Some 4 h) by (change (256 ^ Z.of_nat 4) with (2 ^ 32); lia).
  rewrite (writeUIntBE_Some 2) by (change (256 ^ Z.of_nat 2) with 65536; lia).
  cbn [mbind option_bind]. eexists; split; [reflexivity|].
  unfold _decodeTransactionValue, readUInt32BE, readUInt16BE, readDoubleBE, writeDoubleBE.
  rewrite (readUIntBE_0 4 h) by (change (256 ^ Z.of_nat 4) with (2 ^ 32); lia).
  cbn [mbind option_bind].
  rewrite (readUIntBE_at 8 4 (be_bytes 4 h) ts)
    by (apply length_be_bytes || (change (256 ^ Z.of_nat 8) with (2 ^ 64); lia)).
  cbn [mbind option_bind].
  rewrite (app_assoc (be_bytes 4 h) (be_bytes 8 ts)).
  rewrite (readUIntBE_at 2 12 _ (Z.of_nat (length vs) * 8))
    by ((rewrite length_app, !length_be_bytes; lia) ||
        (change (256 ^ Z.of_nat 2) with 65536; lia)).
  cbn [mbind option_bind].
  rewrite iterations_bytes.
  rewrite (app_assoc _ (be_bytes 2 _)).
  rewrite readInputValues_written;
    [| rewrite !length_app, !length_be_bytes; lia | done].
  cbn [mbind option_bind]. f_equal. f_equal.
  unfold slice_from. rewrite (app_assoc _ (writeInputValues vs)).
  apply drop_app_length'.
  rewrite !length_app, !length_be_bytes, length_writeInputValues. lia.
Qed.

Lemma transaction_value_roundtrip_witness :
  exists b, _encodeTransactionValue sampleTransaction = Some b /\
            _decodeTransactionValue b = Some sampleTransaction.
Proof.
  apply (transaction_value_roundtrip sampleTransaction).
  - unfold decorated; simpl. repeat split; try lia.
    repeat constructor; lia.
  - simpl. lia.
Defined.

(** C7 as stated fails: with 8192 input values the byte length 65536 does not
    fit the 16-bit length field, the write raises, and no record is produced
    to decode. *)
Lemma transaction_value_roundtrip_fails_8192 :
  decorated manyInputs /\
  _encodeTransactionValue manyInputs = None /\
  ~ exists b, _encodeTransactionValue manyInputs = Some b /\
              _decodeTransactionValue b = Some manyInputs.
Proof.
  assert (_encodeTransactionValue manyInputs = None) as Henc by (vm_compute; reflexivity).
  split; [|split; [exact Henc|]].
  - unfold decorated, manyInputs.
    cbn [__height __timestamp __inputValues].
    repeat split; try lia. apply Forall_replicate. lia.
  - intros (b & Hb & _). rewrite Henc in Hb. discriminate.
Qed.

End TransactionFacts.

(* ===================================================================== *)
(** * Properties of the tip record *)
(* ===================================================================== *)

Module TipFacts.
Import Buf BufFacts Async DB Vocabulary Samples.

Lemma u32_range v : 0 <= v < 2 ^ 32 -> 0 <= v < 256 ^ Z.of_nat 4.
Proof. change (256 ^ Z.of_nat 4) with (2 ^ 32). done. Qed.

(** The two tip operations differ only in their key. *)
Lemma tip_operations_agree block add :
  getConcurrentTipOperation block add =
  (fun op => {| type := type op; key := dbPrefix +:+ "concurrentTip";
                value := value op |}) <$> getTipOperation block add.
Proof.
  unfold getTipOperation, getConcurrentTipOperation.
  destruct add.
  - destruct (writeUInt32BE (__height block)); [|done]. simpl.
    destruct (fromHex (hash block)); done.
  - destruct (writeUInt32BE (__height block - 1)); done.
Qed.

(** C5. For a block whose hash is the hex form of 32 bytes [h] and whose
    [__height] is a u32, the tip operation of a connect is a put under the
    tip key of [h] followed by the 4 big-endian bytes of the height; when the
    block has a parent (height at least 1) and a 32-byte [prevHash], the tip
    operation of a disconnect is a put of the byte-reversed [prevHash]
    followed by the 4 big-endian bytes of height - 1. Both values are 36
    bytes long. *)
Theorem getTipOperation_value (block : Block) (h : Buffer) :
  wf h -> length h = 32%nat -> hash block = toHex h ->
  length (prevHash (header block)) = 32%nat ->
  0 <= __height block < 2 ^ 32 ->
  (getTipOperation block true =
     Some {| type := put; key := dbPrefix +:+ "tip";
             value := h ++ be_bytes 4 (__height block) |} /\
   length (h ++ be_bytes 4 (__height block)) = 36%nat) /\
  (1 <= __height block ->
   getTipOperation block false =
     Some {| type := put; key := dbPrefix +:+ "tip";
             value := rev (prevHash (header block)) ++ be_bytes 4 (__height block - 1) |} /\
   length (rev (prevHash (header block)) ++ be_bytes 4 (__height block - 1)) = 36%nat).
Proof.
  intros Hwf Hlen Hhash Hprev Hheight. split.
  - unfold getTipOperation, writeUInt32BE.
    rewrite writeUIntBE_Some by by apply u32_range.
    rewrite Hhash, fromHex_toHex by done. split; [done|].
    rewrite length_app, length_be_bytes, Hlen. done.
  - intros Hparent. unfold getTipOperation, writeUInt32BE, reverse.
    rewrite writeUIntBE_Some by (apply u32_range; lia). split; [done|].
    rewrite length_app, length_rev, length_be_bytes, Hprev. done.
Qed.

Lemma sampleHash_wf : wf sampleHash.
Proof. unfold sampleHash. repeat constructor; unfold is_byte; lia. Qed.

Lemma getTipOperation_value_witness :
  (getTipOperation sampleBlock true =
     Some {| type := put; key := dbPrefix +:+ "tip";
             value := sampleHash ++ [0; 1; 17; 112] |} /\
   length (sampleHash ++ be_bytes 4 70000) = 36%nat) /\
  (1 <= 70000 ->
   getTipOperation sampleBlock false =
     Some {| type := put; key := dbPrefix +:+ "tip";
             value := sampleHash ++ [0; 1; 17; 111] |} /\
   length (rev (rev sampleHash) ++ be_bytes 4 (70000 - 1)) = 36%nat).
Proof.
  apply (getTipOperation_value sampleBlock sampleHash).
  - exact sampleHash_wf.
  - reflexivity.
  - reflexivity.
  - reflexivity.
  - simpl. lia.
Defined.

(** Disconnecting a block of height 0 has no tip operation: the write of
    [-1] raises. *)
Lemma getTipOperation_genesis_disconnect block :
  __height block = 0 -> getTipOperation block false = None.
Proof. intros H. unfold getTipOperation. rewrite H. done. Qed.

End TipFacts.

(* ===================================================================== *)
(** * Properties of the store layer *)
(* ===================================================================== *)

Module StoreFacts.
Import Buf Async.

Lemma with_store_same s :
  faults s = [] -> with_store (store s) (calls s) [] s = s.
Proof. destruct s; simpl; intros ->; reflexivity. Qed.

Lemma store_get_ok k s :
  faults s = [] -> store_get k s = (Ret (store s !! k), s).
Proof.
  intros Hf. unfold store_get, next_fault. rewrite Hf.
  by rewrite with_store_same.
Qed.

Lemma store_put_ok k v s :
  faults s = [] ->
  store_put k v s =
    (Ret tt, with_store (<[k := v]> (store s)) (calls s ++ [CallPut k v]) [] s).
Proof. intros Hf. unfold store_put, next_fault. by rewrite Hf. Qed.

Lemma store_batch_ok ops s :
  faults s = [] ->
  store_batch ops s =
    (Ret tt, with_store (apply_batch ops (store s)) (calls s ++ [CallBatch ops]) [] s).
Proof. intros Hf. unfold store_batch, next_fault. by rewrite Hf. Qed.

(** Whatever the I/O result, a batch request is logged once, and the store
    holds either all of its operations or none. *)
Lemma store_batch_calls ops s :
  exists r s', store_batch ops s = (r, s') /\
    calls s' = calls s ++ [CallBatch ops] /\
    (r = Ret tt -> store s' = apply_batch ops (store s)) /\
    (r <> Ret tt -> store s' = store s).
Proof.
  unfold store_batch. destruct (next_fault s) as [[e|] rest].
  - eexists _, _. split; [reflexivity|]. simpl. repeat split; done.
  - eexists _, _. split; [reflexivity|]. simpl. repeat split; done.
Qed.

Lemma apply_batch_app ops1 ops2 m :
  apply_batch (ops1 ++ ops2) m = apply_batch ops2 (apply_batch ops1 m).
Proof. unfold apply_batch. apply fold_left_app. Qed.

End StoreFacts.

(* ===================================================================== *)
(** * Properties of the block applier *)
(* ===================================================================== *)

Module ApplierFacts.
Import Buf BufFacts Async DB Vocabulary Samples StoreFacts TipFacts.

Lemma eachHandler_ok sel block add mods : forall operations,
  (forall svc e, svc ∈ mods -> ~ fails sel block add svc e) ->
  eachHandler sel block add mods operations =
    inr (operations ++ concat (map (opsOf sel block add) mods)).
Proof.
  induction mods as [|svc mods IH]; intros operations Hok.
  - simpl. by rewrite app_nil_r.
  - assert (forall svc' e, svc' ∈ mods -> ~ fails sel block add svc' e) as Hrest
      by (intros svc' e Hin; apply Hok; by right).
    cbn [eachHandler map concat]. unfold opsOf at 1.
    destruct (sel svc) as [handler|] eqn:Hsel.
    + destruct (handler block add) as [e|[ops|]] eqn:Hh.
      * exfalso. apply (Hok svc e); [by left|]. by exists handler.
      * rewrite IH by done. by rewrite app_assoc.
      * by rewrite IH.
    + by rewrite IH.
Qed.

Lemma eachHandler_fails sel block add mods : forall operations svc e,
  svc ∈ mods -> fails sel block add svc e ->
  exists svc' e', svc' ∈ mods /\ fails sel block add svc' e' /\
    eachHandler sel block add mods operations = inl e'.
Proof.
  induction mods as [|m mods IH]; intros operations svc e Hin Hfail.
  - by apply elem_of_nil in Hin.
  - cbn [eachHandler].
    destruct (sel m) as [handler|] eqn:Hsel.
    + destruct (handler block add) as [e0|[ops|]] eqn:Hh.
      * exists m, e0. split; [by left|]. split; [by exists handler | done].
      * apply elem_of_cons in Hin as [->|Hin].
        { destruct Hfail as (h' & Hs & Hr). congruence. }
        destruct (IH (operations ++ ops) svc e Hin Hfail) as (svc' & e' & ? & ? & ?).
        exists svc', e'. split; [by right | done].
      * apply elem_of_cons in Hin as [->|Hin].
        { destruct Hfail as (h' & Hs & Hr). congruence. }
        destruct (IH operations svc e Hin Hfail) as (svc' & e' & ? & ? & ?).
        exists svc', e'. split; [by right | done].
    + apply elem_of_cons in Hin as [->|Hin].
      { destruct Hfail as (h' & Hs & Hr). congruence. }
      destruct (IH operations svc e Hin Hfail) as (svc' & e' & ? & ? & ?).
      exists svc', e'. split; [by right | done].
Qed.

Lemma eachHandler_error_source sel block add mods : forall operations e,
  eachHandler sel block add mods operations = inl e ->
  exists svc, svc ∈ mods /\ fails sel block add svc e.
Proof.
  induction mods as [|m mods IH]; intros operations e; cbn [eachHandler]; [done|].
  destruct (sel m) as [handler|] eqn:Hsel.
  - destruct (handler block add) as [e0|[ops|]] eqn:Hh.
    + intros [= <-]. exists m. split; [by left | by exists handler].
    + intros H. destruct (IH _ _ H) as (svc & ? & ?). exists svc. split; [by right | done].
    + intros H. destruct (IH _ _ H) as (svc & ? & ?). exists svc. split; [by right | done].
  - intros H. destruct (IH _ _ H) as (svc & ? & ?). exists svc. split; [by right | done].
Qed.

Lemma getTipOperation_shape block add t :
  getTipOperation block add = Some t ->
  t = {| type := put; key := dbPrefix +:+ "tip"; value := value t |}.
Proof.
  unfold getTipOperation. destruct add.
  - destruct (writeUInt32BE (__height block)); [|done]. simpl.
    destruct (fromHex (hash block)); [|done]. simpl. by intros [= <-].
  - destruct (writeUInt32BE (__height block - 1)); [|done]. simpl. by intros [= <-].
Qed.

Section WithNode.
Variable services : list Service.
Variable completion : list Service -> list Service.

Lemma applyBlock_unfold block connect :
  applyBlock services completion block connect =
  (let* ops := getConcurrentBlockOperations services completion block connect in
   let* ops2 := getSerialBlockOperations services block connect in
   let* tipOp := orThrow "RangeError" (getTipOperation block connect) in
   let* concurrentTipOp := orThrow "RangeError" (getConcurrentTipOperation block connect) in
   store_batch (((ops ++ ops2) ++ [tipOp]) ++ [concurrentTipOp]))%async.
Proof. destruct connect; reflexivity. Qed.

(** C1. For every block and either direction, when the concurrent handlers
    call back in an order that is a permutation of the services:
    - if no handler returns an error and the tip operations exist, the
      applier submits exactly one request to the store, a batch made of the
      operations of the concurrent handlers, then those of the serial
      handlers, then the tip and the concurrent-tip operation; every
      operation of every handler is in it; the store then holds the batch
      applied (or is unchanged when the store reports an I/O error);
    - if some handler returns an error, the apply ends with an error returned
      by a handler, nothing is submitted and the state is unchanged. *)
Theorem applyBlock_atomic (block : Block) (connect : bool) (s : State) :
  completion services ≡ₚ services ->
  ((forall svc e, svc ∈ services ->
      ~ fails concurrentBlockHandler block connect svc e /\
      ~ fails blockHandler block connect svc e) ->
   forall t ct,
     getTipOperation block connect = Some t ->
     getConcurrentTipOperation block connect = Some ct ->
     exists r s',
       applyBlock services completion block connect s = (r, s') /\
       calls s' = calls s ++ [CallBatch (batchOf services completion block connect t ct)] /\
       (r = Ret tt -> store s' = apply_batch (batchOf services completion block connect t ct) (store s)) /\
       (r <> Ret tt -> store s' = store s) /\
       (faults s = [] -> r = Ret tt) /\
       (forall svc op, svc ∈ services ->
          op ∈ opsOf concurrentBlockHandler block connect svc \/
          op ∈ opsOf blockHandler block connect svc ->
          op ∈ batchOf services completion block connect t ct)) /\
  (forall svc e, svc ∈ services ->
     fails concurrentBlockHandler block connect svc e \/
     fails blockHandler block connect svc e ->
     exists svc' e', svc' ∈ services /\
       (fails concurrentBlockHandler block connect svc' e' \/
        fails blockHandler block connect svc' e') /\
       applyBlock services completion block connect s = (Err e', s)).
Proof.
  intros Hperm. split.
  - intros Hok t ct Ht Hct.
    rewrite applyBlock_unfold.
    unfold bind, getConcurrentBlockOperations, getSerialBlockOperations, ofSum.
    rewrite eachHandler_ok
      by (intros svc e Hin; apply Hok; by rewrite <- Hperm).
    rewrite eachHandler_ok by (intros svc e Hin; by apply Hok).
    cbn [ret app]. rewrite Ht, Hct. cbn [orThrow ret].
    replace (((concat (map (opsOf concurrentBlockHandler block connect) (completion services)) ++
               concat (map (opsOf blockHandler block connect) services)) ++ [t]) ++ [ct])
      with (batchOf services completion block connect t ct)
      by (unfold batchOf; rewrite <- !app_assoc; reflexivity).
    destruct (store_batch_calls (batchOf services completion block connect t ct) s)
      as (r & s' & Hrun & Hcalls & Hdone & Hnot).
    exists r, s'. repeat split; try done.
    + intros Hf. rewrite store_batch_ok in Hrun by done. by inversion Hrun.
    + intros svc op Hin Hop. unfold batchOf.
      rewrite !elem_of_app. destruct Hop as [Hop|Hop]; [left | right; left].
      * apply list_elem_of_In, in_concat.
        exists (opsOf concurrentBlockHandler block connect svc).
        split; [|by apply list_elem_of_In].
        apply in_map, list_elem_of_In. by rewrite Hperm.
      * apply list_elem_of_In, in_concat.
        exists (opsOf blockHandler block connect svc).
        split; [|by apply list_elem_of_In].
        by apply in_map, list_elem_of_In.
  - intros svc e Hin Hfail.
    rewrite applyBlock_unfold.
    unfold bind, getConcurrentBlockOperations, getSerialBlockOperations, ofSum.
    destruct (eachHandler concurrentBlockHandler block connect (completion services) [])
      as [e1|ops1] eqn:Hconc.
    + (* a concurrent handler failed first *)
      destruct (eachHandler_error_source _ _ _ _ _ _ Hconc) as (svc' & Hin' & Hf').
      exists svc', e1. split; [by rewrite <- Hperm|]. split; [by left | done].
    + cbn [ret].
      destruct Hfail as [Hfail|Hfail].
      * exfalso.
        destruct (eachHandler_fails concurrentBlockHandler block connect
                    (completion services) [] svc e) as (? & ? & _ & _ & Heq);
          [by rewrite Hperm | done |]. congruence.
      * destruct (eachHandler_fails blockHandler block connect services [] svc e Hin Hfail)
          as (svc' & e' & Hin' & Hf' & Heq).
        rewrite Heq. exists svc', e'. split; [done|]. split; [by right | done].
Qed.

End WithNode.
End ApplierFacts.

(* ===================================================================== *)
(** * The two tip records of a commit *)
(* ===================================================================== *)

Module CommitFacts.
Import Buf BufFacts Async DB Vocabulary Samples StoreFacts TipFacts ApplierFacts.

Lemma tip_keys_differ : dbPrefix +:+ "tip" <> dbPrefix +:+ "concurrentTip".
Proof. discriminate. Qed.

Section WithNode.
Variable services : list Service.
Variable completion : list Service -> list Service.

(** C10. A call of connectBlock or disconnectBlock either submits nothing,
    and then it does not succeed and leaves the store as it was, or submits
    one batch, its only request, whose last two operations are puts of one
    and the same value under the tip key and under the concurrentTip key.
    Hence a commit that succeeds has submitted such a batch, and the store
    then holds that one value under both keys; a batch the store refuses
    leaves the store as it was. *)
Theorem commit_tips_equal (block : Block) (connect : bool) (s s' : State)
    (r : outcome unit) :
  applyBlock services completion block connect s = (r, s') ->
  (r = Ret tt ->
   exists v, store s' !! (dbPrefix +:+ "tip") = Some v /\
             store s' !! (dbPrefix +:+ "concurrentTip") = Some v) /\
  ((calls s' = calls s /\ store s' = store s /\ r <> Ret tt) \/
   exists ops v,
     calls s' = calls s ++
       [CallBatch (ops ++ [ {| type := put; key := dbPrefix +:+ "tip"; value := v |};
                            {| type := put; key := dbPrefix +:+ "concurrentTip"; value := v |} ])] /\
     (r = Ret tt ->
      store s' !! (dbPrefix +:+ "tip") = Some v /\
      store s' !! (dbPrefix +:+ "concurrentTip") = Some v) /\
     (r <> Ret tt -> store s' = store s)).
Proof.
  intros Hrun.
  assert ((calls s' = calls s /\ store s' = store s /\ r <> Ret tt) \/
          exists ops v,
            calls s' = calls s ++
              [CallBatch (ops ++ [ {| type := put; key := dbPrefix +:+ "tip"; value := v |};
                                   {| type := put; key := dbPrefix +:+ "concurrentTip";
                                      value := v |} ])] /\
            (r = Ret tt ->
             store s' !! (dbPrefix +:+ "tip") = Some v /\
             store s' !! (dbPrefix +:+ "concurrentTip") = Some v) /\
            (r <> Ret tt -> store s' = store s)) as Hcases;
    [|split; [|exact Hcases];
      intros Hr; destruct Hcases as [(_ & _ & Hne)|(ops & v & _ & Hstore & _)];
      [by destruct Hne | exists v; by apply Hstore]].
  revert Hrun. rewrite applyBlock_unfold.
  unfold bind, getConcurrentBlockOperations, getSerialBlockOperations, ofSum.
  destruct (eachHandler concurrentBlockHandler block connect (completion services) [])
    as [e1|ops1]; [intros [= <- <-]; by left|].
  cbn [ret].
  destruct (eachHandler blockHandler block connect services [])
    as [e2|ops2]; [intros [= <- <-]; by left|].
  cbn [ret]. rewrite tip_operations_agree.
  destruct (getTipOperation block connect) as [t|] eqn:Ht;
    [|intros [= <- <-]; by left].
  cbn [orThrow ret fmap option_fmap option_map].
  rewrite (getTipOperation_shape _ _ _ Ht). cbn [type key value].
  rewrite <- app_assoc. cbn [app].
  intros Hrun. right. exists (ops1 ++ ops2), (value t).
  destruct (store_batch_calls
              ((ops1 ++ ops2) ++
               [ {| type := put; key := dbPrefix +:+ "tip"; value := value t |};
                 {| type := put; key := dbPrefix +:+ "concurrentTip"; value := value t |} ]) s)
    as (r0 & s0 & Hrun0 & Hcalls & Hdone & Hnot).
  rewrite Hrun in Hrun0. inversion Hrun0; subst r0 s0.
  split; [done|]. split; [|exact Hnot].
  intros Hr. rewrite (Hdone Hr), apply_batch_app.
  unfold apply_batch at 1. cbn [fold_left apply_op type key value].
  split.
  - rewrite lookup_insert_ne by (intros H; by apply tip_keys_differ).
    apply lookup_insert_eq.
  - apply lookup_insert_eq.
Qed.

End WithNode.

(** ** The applier on the sample node *)

Lemma sampleServices_never_fail block connect svc e :
  svc ∈ sampleServices ->
  ~ fails concurrentBlockHandler block connect svc e /\
  ~ fails blockHandler block connect svc e.
Proof.
  unfold sampleServices. rewrite !elem_of_cons, elem_of_nil.
  intros [->|[->|[->|Hnone]]]; [| | |destruct Hnone];
    split; intros (h & Hsel & Hres);
    simpl in Hsel; try discriminate; inversion Hsel; subst h; discriminate.
Qed.

Lemma applyBlock_atomic_witness :
  rev sampleServices ≡ₚ sampleServices /\
  exists s',
    applyBlock sampleServices (@rev Service) sampleBlock true emptyState = (Ret tt, s') /\
    calls s' =
      [CallBatch
         [ {| type := put; key := "ad" +:+ hash sampleBlock; value := [7] |};
           {| type := put; key := "ts" +:+ hash sampleBlock; value := [0; 0; 0; 9] |};
           {| type := put; key := dbPrefix +:+ "tip";
              value := sampleHash ++ [0; 1; 17; 112] |};
           {| type := put; key := dbPrefix +:+ "concurrentTip";
              value := sampleHash ++ [0; 1; 17; 112] |} ]].
Proof.
  assert (rev sampleServices ≡ₚ sampleServices) as Hperm
    by (symmetry; apply Permutation_rev).
  split; [exact Hperm|].
  destruct (applyBlock_atomic sampleServices (@rev Service) sampleBlock true emptyState Hperm)
    as [Hok _].
  destruct (Hok (sampleServices_never_fail sampleBlock true) _ _ eq_refl eq_refl)
    as (r & s' & Hrun & Hcalls & _ & _ & Hret & _).
  exists s'. rewrite (Hret eq_refl) in Hrun. split; [exact Hrun | exact Hcalls].
Defined.

Lemma commit_tips_equal_witness :
  exists s' ops v,
    applyBlock sampleServices (@rev Service) sampleBlock false emptyState = (Ret tt, s') /\
    calls s' = calls emptyState ++
      [CallBatch (ops ++ [ {| type := put; key := dbPrefix +:+ "tip"; value := v |};
                           {| type := put; key := dbPrefix +:+ "concurrentTip"; value := v |} ])] /\
    store s' !! (dbPrefix +:+ "tip") = Some v /\
    store s' !! (dbPrefix +:+ "concurrentTip") = Some v.
Proof.
  assert (applyBlock sampleServices (@rev Service) sampleBlock false emptyState =
            (Ret tt, snd (applyBlock sampleServices (@rev Service) sampleBlock false
                            emptyState))) as Hrun by (vm_compute; reflexivity).
  destruct (commit_tips_equal sampleServices (@rev Service) sampleBlock false emptyState
              _ (Ret tt) Hrun) as [_ [(_ & _ & Hne)|(ops & v & Hcalls & Hstore & _)]].
  - by destruct Hne.
  - eexists _, ops, v. split; [exact Hrun|]. split; [exact Hcalls | by apply Hstore].
Defined.

End CommitFacts.

(* ===================================================================== *)
(** * Properties of start-up: the version guard and the tip loads *)
(* ===================================================================== *)

Module StartFacts.
Import Buf BufFacts Async DB Vocabulary Samples StoreFacts TipFacts ApplierFacts CommitFacts.

Lemma retry_first_success {A} n (task : M A) s a s' :
  task s = (Ret a, s') -> retry n task s = (Ret a, s').
Proof. intros H. destruct n; simpl; by rewrite H. Qed.

(** Three failed attempts: [async.retry] gives up with the last error. *)
Lemma retry_three_errors {A} (task : M A) s0 s1 s2 s3 e1 e2 e3 :
  task s0 = (Err e1, s1) -> task s1 = (Err e2, s2) -> task s2 = (Err e3, s3) ->
  retry 2 task s0 = (Err e3, s3).
Proof. intros H1 H2 H3. simpl. by rewrite H1, H2, H3. Qed.

Section WithNode.
Variable services : list Service.
Variable completion : list Service -> list Service.
Variable bitcoind_getBlock : nat -> string -> Error + Block.
Variable dataPath : string.

(** C3. When the store has a tip and the stored version [v] (1 when the
    version key is absent, else the u32 read from its value) is not 2, the
    version check, and with it the start of the service, ends with an error
    whose message carries [v], the expected version 2 and the address of the
    reindex instructions; the state is the one before the start: the store
    is untouched and no write was requested. *)
Theorem start_version_mismatch (s : State) (tipData : Buffer) (v : Z) :
  faults s = [] ->
  store s !! (dbPrefix +:+ "tip") = Some tipData ->
  (store s !! (dbPrefix +:+ "version") = None /\ v = 1) \/
  (exists buffer, store s !! (dbPrefix +:+ "version") = Some buffer /\
                  readUInt32BE 0 buffer = Some v) ->
  v <> 2 ->
  let message :=
    "The version of the database " +:+ dquote +:+ pretty v +:+ dquote +:+
    " does not match the expected version " +:+ dquote +:+ "2" +:+ dquote +:+
    ". A recreation of " +:+ dquote +:+ dataPath +:+ dquote +:+
    " (can take several hours) is required or to switch versions of software to match." +:+
    " Please see https://github.com/bitpay/bitcore-node/blob/master/docs/services/db.md#how-to-reindex" +:+
    " for more information." in
  _checkVersion dataPath s = (Err message, s) /\
  start services completion bitcoind_getBlock dataPath s = (Err message, s).
Proof.
  intros Hf Htip Hver Hne message.
  assert (versionMessage dataPath v = message) as Hmsg.
  { unfold versionMessage, message, helpUrl.
    change (pretty version) with "2".
    generalize (pretty v). intros pv. reflexivity. }
  assert (_checkVersion dataPath s = (Err message, s)) as Hcheck.
  { unfold _checkVersion, bind.
    rewrite store_get_ok by done. rewrite Htip.
    rewrite store_get_ok by done.
    destruct Hver as [[-> ->] | (buffer & -> & Hread)].
    - cbn [ret]. rewrite decide_True by done. by rewrite Hmsg.
    - rewrite Hread. cbn [orThrow ret].
      rewrite decide_True by (unfold version; congruence). by rewrite Hmsg. }
  split; [exact Hcheck|].
  unfold start, bind. by rewrite Hcheck.
Qed.

(** A database without a tip passes the check; so does one whose stored
    version is 2. *)
Lemma _checkVersion_fresh s :
  faults s = [] -> store s !! (dbPrefix +:+ "tip") = None ->
  _checkVersion dataPath s = (Ret tt, s).
Proof.
  intros Hf Htip. unfold _checkVersion, bind.
  rewrite store_get_ok by done. by rewrite Htip.
Qed.

Lemma _checkVersion_current s tipData buffer :
  faults s = [] -> store s !! (dbPrefix +:+ "tip") = Some tipData ->
  store s !! (dbPrefix +:+ "version") = Some buffer ->
  readUInt32BE 0 buffer = Some 2 ->
  _checkVersion dataPath s = (Ret tt, s).
Proof.
  intros Hf Htip Hv Hread. unfold _checkVersion, bind.
  rewrite store_get_ok by done. rewrite Htip.
  rewrite store_get_ok by done. rewrite Hv, Hread.
  cbn [orThrow ret]. by rewrite decide_False by (unfold version; lia).
Qed.

(** ** Loading the tips *)

Lemma loadTip_present s tipData height upstream :
  faults s = [] ->
  store s !! (dbPrefix +:+ "tip") = Some tipData ->
  readUInt32BE 32 tipData = Some height ->
  bitcoind_getBlock (rpcs s) (toHex (slice 0 32 tipData)) = inr upstream ->
  loadTip services completion bitcoind_getBlock s =
    (Ret tt, with_tip (Some (set_height height upstream)) (genesis s)
               (with_rpcs (S (rpcs s)) s)).
Proof.
  intros Hf Htip Hread Hrpc. unfold loadTip, bind.
  rewrite store_get_ok by done. rewrite Htip, Hread. cbn [orThrow ret].
  rewrite (retry_first_success 2 _ s upstream (with_rpcs (S (rpcs s)) s))
    by (unfold getBlock; by rewrite Hrpc).
  reflexivity.
Qed.

Lemma loadConcurrentTip_present s tipData height upstream :
  faults s = [] ->
  store s !! (dbPrefix +:+ "concurrentTip") = Some tipData ->
  readUInt32BE 32 tipData = Some height ->
  bitcoind_getBlock (rpcs s) (toHex (slice 0 32 tipData)) = inr upstream ->
  loadConcurrentTip bitcoind_getBlock s =
    (Ret tt, with_concurrentTip (Some (set_height height upstream)) (genesis s)
               (with_rpcs (S (rpcs s)) s)).
Proof.
  intros Hf Htip Hread Hrpc. unfold loadConcurrentTip, bind.
  rewrite store_get_ok by done. rewrite Htip, Hread. cbn [orThrow ret].
  rewrite (retry_first_success 2 _ s upstream (with_rpcs (S (rpcs s)) s))
    by (unfold getBlock; by rewrite Hrpc).
  reflexivity.
Qed.

(** When bitcoind fails three times in a row, the load gives up with the
    third error after exactly three calls. *)
Lemma loadConcurrentTip_gives_up s tipData height e1 e2 e3 :
  faults s = [] ->
  store s !! (dbPrefix +:+ "concurrentTip") = Some tipData ->
  readUInt32BE 32 tipData = Some height ->
  bitcoind_getBlock (rpcs s) (toHex (slice 0 32 tipData)) = inl e1 ->
  bitcoind_getBlock (S (rpcs s)) (toHex (slice 0 32 tipData)) = inl e2 ->
  bitcoind_getBlock (S (S (rpcs s))) (toHex (slice 0 32 tipData)) = inl e3 ->
  loadConcurrentTip bitcoind_getBlock s = (Err e3, with_rpcs (S (S (S (rpcs s)))) s).
Proof.
  intros Hf Htip Hread H1 H2 H3. unfold loadConcurrentTip, bind.
  rewrite store_get_ok by done. rewrite Htip, Hread. cbn [orThrow ret].
  rewrite (retry_three_errors _ s (with_rpcs (S (rpcs s)) s)
             (with_rpcs (S (S (rpcs s))) s) (with_rpcs (S (S (S (rpcs s)))) s) e1 e2 e3);
    [done | | |]; unfold getBlock; cbn [rpcs with_rpcs]; by rewrite ?H1, ?H2, ?H3.
Qed.

(** The absent case of the concurrent tip: the tip is set to genesis at
    height 0, and the function returns without invoking its callback. *)
Lemma loadConcurrentTip_absent s :
  faults s = [] ->
  store s !! (dbPrefix +:+ "concurrentTip") = None ->
  loadConcurrentTip bitcoind_getBlock s =
    (NoCallback,
     with_concurrentTip (Some (set_height 0 (genesis s))) (set_height 0 (genesis s)) s).
Proof.
  intros Hf Hctip. unfold loadConcurrentTip, bind.
  rewrite store_get_ok by done. by rewrite Hctip.
Qed.

(** C6. For 32 bytes [h] and a u32 [height], the connect-mode tip operation
    of the block with hash [toHex h] and that height exists, and decoding
    its value as [loadTip] does gives back the hash (its first 32 bytes are
    [h], whose hex form is the block's hash) and the height (the big-endian
    u32 at offset 32). Accordingly [loadTip], run on a store that holds this
    value under the tip key, asks bitcoind for that very hash and decorates
    the block it gets with that very height. *)
Theorem tip_record_roundtrip (block : Block) (h : Buffer) (height : Z) :
  wf h -> length h = 32%nat -> 0 <= height < 2 ^ 32 ->
  hash block = toHex h -> __height block = height ->
  exists op,
    getTipOperation block true = Some op /\
    slice 0 32 (value op) = h /\
    toHex (slice 0 32 (value op)) = hash block /\
    readUInt32BE 32 (value op) = Some height /\
    (forall s upstream,
       faults s = [] ->
       store s !! (dbPrefix +:+ "tip") = Some (value op) ->
       bitcoind_getBlock (rpcs s) (hash block) = inr upstream ->
       exists s', loadTip services completion bitcoind_getBlock s = (Ret tt, s') /\
                  tip s' = Some (set_height height upstream) /\
                  store s' = store s).
Proof.
  intros Hwf Hlen Hheight Hhash Hh.
  exists {| type := put; key := dbPrefix +:+ "tip"; value := h ++ be_bytes 4 height |}.
  assert (slice 0 32 (h ++ be_bytes 4 height) = h) as Hslice.
  { unfold slice. rewrite drop_0. change (32 - 0)%nat with 32%nat.
    by apply take_app_length'. }
  assert (readUInt32BE 32 (h ++ be_bytes 4 height) = Some height) as Hread.
  { unfold readUInt32BE. rewrite <- (app_nil_r (be_bytes 4 height)).
    apply readUIntBE_at; [done | by apply u32_range]. }
  cbn [value]. split; [|split; [done|split; [by rewrite Hslice|split; [done|]]]].
  - unfold getTipOperation, writeUInt32BE. rewrite Hh.
    rewrite writeUIntBE_Some by by apply u32_range.
    by rewrite Hhash, fromHex_toHex by done.
  - intros s upstream Hf Hstore Hrpc. eexists. split.
    + apply (loadTip_present s (h ++ be_bytes 4 height) height upstream); try done.
      by rewrite Hslice, <- Hhash.
    + done.
Qed.

End WithNode.
End StartFacts.

(* ===================================================================== *)
(** * Start-up on concrete databases *)
(* ===================================================================== *)

Module StartExamples.
Import Buf BufFacts Async DB Vocabulary Samples StoreFacts TipFacts ApplierFacts CommitFacts StartFacts.

Lemma start_version_mismatch_witness :
  let message :=
    "The version of the database " +:+ dquote +:+ "1" +:+ dquote +:+
    " does not match the expected version " +:+ dquote +:+ "2" +:+ dquote +:+
    ". A recreation of " +:+ dquote +:+ "/data/bitcore-node.db" +:+ dquote +:+
    " (can take several hours) is required or to switch versions of software to match." +:+
    " Please see https://github.com/bitpay/bitcore-node/blob/master/docs/services/db.md#how-to-reindex" +:+
    " for more information." in
  _checkVersion "/data/bitcore-node.db" legacyState = (Err message, legacyState) /\
  start sampleServices (@rev Service) healthyBitcoind "/data/bitcore-node.db" legacyState =
    (Err message, legacyState).
Proof.
  apply (start_version_mismatch sampleServices (@rev Service) healthyBitcoind
           "/data/bitcore-node.db" legacyState sampleTip 1).
  - reflexivity.
  - vm_compute; reflexivity.
  - left. split; [vm_compute; reflexivity | reflexivity].
  - lia.
Defined.

Lemma tip_record_roundtrip_witness :
  exists op,
    getTipOperation sampleBlock true = Some op /\
    slice 0 32 (value op) = sampleHash /\
    toHex (slice 0 32 (value op)) = hash sampleBlock /\
    readUInt32BE 32 (value op) = Some 70000.
Proof.
  destruct (tip_record_roundtrip sampleServices (@rev Service) healthyBitcoind
              sampleBlock sampleHash 70000)
    as (op & Hop & Hslice & Hhex & Hread & _).
  - exact sampleHash_wf.
  - reflexivity.
  - lia.
  - reflexivity.
  - reflexivity.
  - exists op. repeat split; assumption.
Defined.

(** C8, the behaviour of the code where the claim fails. On a database with
    a tip record and no concurrent-tip record, [loadConcurrentTip] sets the
    concurrent tip to genesis at height 0 and returns without invoking its
    callback, so that [start] never completes; [loadTip], in the same
    situation for the tip key, does invoke its callback. *)
Theorem loadConcurrentTip_absent_no_callback :
  (exists s',
     loadConcurrentTip healthyBitcoind serialOnlyState = (NoCallback, s') /\
     concurrentTip s' = Some (set_height 0 sampleBlock)) /\
  (exists s',
     start sampleServices (@rev Service) healthyBitcoind "/data/bitcore-node.db"
       serialOnlyState = (NoCallback, s')) /\
  (exists s',
     loadTip sampleServices (@rev Service) healthyBitcoind emptyState = (Ret tt, s') /\
     tip s' = Some (set_height 0 sampleBlock)).
Proof.
  split; [|split].
  - eexists. split; [vm_compute; reflexivity | reflexivity].
  - eexists. vm_compute; reflexivity.
  - eexists. split; [vm_compute; reflexivity | reflexivity].
Qed.

End StartExamples.

(* ===================================================================== *)
(** * Properties of the prefix allocator *)
(* ===================================================================== *)

Module PrefixFacts.
Import Buf BufFacts Async DB Vocabulary Samples StoreFacts.

Lemma prefixKey_not_nextUnused service : prefixKey service <> nextUnusedKey.
Proof. discriminate. Qed.

Lemma prefixKey_inj a b : prefixKey a = prefixKey b -> a = b.
Proof. intros H. unfold dbPrefix in H. simpl in H. by injection H. Qed.

Lemma u16_range v : 0 <= v < 65536 -> 0 <= v < 256 ^ Z.of_nat 2.
Proof. change (256 ^ Z.of_nat 2) with 65536. done. Qed.

(** The run of [getPrefix] for a service without a prefix, up to and
    including [putPrefix]. *)
Lemma getPrefix_fresh_steps service s :
  faults s = [] ->
  store s !! prefixKey service = None ->
  getPrefix service s =
    (let* prefix := orThrow "RangeError" (readUInt16BE 0 (unusedOf (store s))) in
     let* nextUnused := orThrow "RangeError" (writeUInt16BE (prefix + 1)) in
     store_put nextUnusedKey nextUnused ;;
     ret (unusedOf (store s)))%async
      (with_store (<[prefixKey service := unusedOf (store s)]> (store s))
         (calls s ++ [CallPut (prefixKey service) (unusedOf (store s))]) [] s).
Proof.
  intros Hf Hnone. unfold getPrefix, bind at 1.
  rewrite store_get_ok by done. rewrite Hnone.
  unfold bind at 1. rewrite store_get_ok by done.
  unfold bind at 1. rewrite store_put_ok by done.
  reflexivity.
Qed.

(** A service that has a prefix gets it back; nothing is written. *)
Lemma getPrefix_existing service s buffer :
  faults s = [] ->
  store s !! prefixKey service = Some buffer ->
  getPrefix service s = (Ret buffer, s).
Proof.
  intros Hf Hsome. unfold getPrefix, bind.
  rewrite store_get_ok by done. by rewrite Hsome.
Qed.

(** At 0xFFFF: the prefix is written, then the write of 0x10000 raises. *)
Lemma getPrefix_exhausted_run service s :
  faults s = [] ->
  store s !! prefixKey service = None ->
  store s !! nextUnusedKey = Some [255; 255] ->
  getPrefix service s =
    (Thrown "RangeError",
     with_store (<[prefixKey service := [255; 255]]> (store s))
       (calls s ++ [CallPut (prefixKey service) [255; 255]]) [] s).
Proof.
  intros Hf Hnone Hnext.
  rewrite getPrefix_fresh_steps by done.
  unfold unusedOf. rewrite Hnext. reflexivity.
Qed.

(** C4. Without I/O errors:
    - if [prefix-<service>] exists, its value is handed to the callback and
      nothing changes: no write is requested;
    - otherwise, with [buffer] the value of [nextUnused] (0x0001 when the key
      is absent) and [n < 0xFFFF] the u16 it holds, [buffer] is written under
      [prefix-<service>], the big-endian u16 [n + 1] is written under
      [nextUnused], these are the only two writes, and [buffer] is handed to
      the callback;
    - a second call for the same service then returns [buffer] again and
      changes nothing. *)
Theorem getPrefix_idempotent (service : string) (s : State) :
  faults s = [] ->
  (forall buffer, store s !! prefixKey service = Some buffer ->
     getPrefix service s = (Ret buffer, s)) /\
  (store s !! prefixKey service = None ->
   forall n, readUInt16BE 0 (unusedOf (store s)) = Some n -> 0 <= n < 65535 ->
     exists s',
       getPrefix service s = (Ret (unusedOf (store s)), s') /\
       store s' = <[nextUnusedKey := be_bytes 2 (n + 1)]>
                    (<[prefixKey service := unusedOf (store s)]> (store s)) /\
       calls s' = calls s ++ [CallPut (prefixKey service) (unusedOf (store s));
                              CallPut nextUnusedKey (be_bytes 2 (n + 1))] /\
       getPrefix service s' = (Ret (unusedOf (store s)), s')).
Proof.
  intros Hf. split.
  - intros buffer Hsome. by apply getPrefix_existing.
  - intros Hnone n Hread Hn.
    rewrite getPrefix_fresh_steps by done.
    unfold bind at 1. rewrite Hread. cbn [orThrow ret].
    unfold bind at 1. unfold writeUInt16BE.
    rewrite writeUIntBE_Some by (apply u16_range; lia). cbn [orThrow ret].
    unfold bind at 1. rewrite store_put_ok by done.
    cbn [store calls with_store].
    eexists. split; [reflexivity|]. cbn [store calls with_store].
    split; [done|]. split; [by rewrite <- app_assoc|].
    unfold getPrefix, bind. rewrite store_get_ok by done.
    cbn [store with_store].
    rewrite lookup_insert_ne by (intros H; by apply (prefixKey_not_nextUnused service)).
    by rewrite lookup_insert_eq.
Qed.

(** C9, the behaviour of the code where the claim fails. With [nextUnused]
    at 0xFFFF and no prefix for the service, [getPrefix] first writes 0xFFFF
    under [prefix-<service>]; the write of 0x10000 into two bytes then
    raises. No error reaches the callback, the new assignment stays in the
    store, which is no longer the store before the call, and [nextUnused]
    still reads 0xFFFF. *)
Theorem getPrefix_exhausted (service : string) (s : State) :
  faults s = [] ->
  store s !! prefixKey service = None ->
  store s !! nextUnusedKey = Some [255; 255] ->
  exists s',
    getPrefix service s = (Thrown "RangeError", s') /\
    (forall e, getPrefix service s <> (Err e, s')) /\
    store s' !! prefixKey service = Some [255; 255] /\
    store s' <> store s /\
    store s' !! nextUnusedKey = Some [255; 255] /\
    calls s' = calls s ++ [CallPut (prefixKey service) [255; 255]].
Proof.
  intros Hf Hnone Hnext.
  rewrite getPrefix_exhausted_run by done.
  eexists. split; [reflexivity|]. cbn [store calls with_store].
  split; [intros e; discriminate|].
  split; [apply lookup_insert_eq|]. split; [|split; [|done]].
  - intros Heq. rewrite <- Heq, lookup_insert_eq in Hnone. discriminate.
  - rewrite lookup_insert_ne by apply prefixKey_not_nextUnused. done.
Qed.

End PrefixFacts.

(* ===================================================================== *)
(** * Uniqueness of prefixes, and where it is lost *)
(* ===================================================================== *)

Module UniquenessFacts.
Import Buf BufFacts Async DB Vocabulary Samples StoreFacts CommitFacts PrefixFacts.

Lemma getPrefix_fresh_run service s n :
  faults s = [] ->
  store s !! prefixKey service = None ->
  unusedOf (store s) = be_bytes 2 n -> 0 <= n < 65535 ->
  getPrefix service s = (Ret (be_bytes 2 n), allocated service n s).
Proof.
  intros Hf Hnone Hun Hn.
  rewrite getPrefix_fresh_steps by done.
  unfold bind at 1. rewrite Hun.
  unfold readUInt16BE. rewrite <- (app_nil_r (be_bytes 2 n)).
  rewrite readUIntBE_0 by (apply u16_range; lia). rewrite app_nil_r.
  cbn [orThrow ret]. unfold bind at 1, writeUInt16BE.
  rewrite writeUIntBE_Some by (apply u16_range; lia). cbn [orThrow ret].
  unfold bind at 1. rewrite store_put_ok by done.
  cbn [store calls with_store]. unfold allocated.
  rewrite Hun, <- app_assoc. reflexivity.
Qed.

Lemma be_bytes_inj n a b :
  0 <= a < 256 ^ Z.of_nat n -> 0 <= b < 256 ^ Z.of_nat n ->
  be_bytes n a = be_bytes n b -> a = b.
Proof.
  intros Ha Hb Heq.
  rewrite <- (be_roundtrip n a), <- (be_roundtrip n b) by done. by rewrite Heq.
Qed.

Lemma allocatorInv_empty : allocatorInv 1 emptyState.
Proof.
  unfold allocatorInv, emptyState; cbn [faults store].
  split; [done|]. split; [lia|]. split; [done|].
  split; intros *; by rewrite lookup_empty.
Qed.

Lemma allocated_lookup_prefix service n s other :
  store (allocated service n s) !! prefixKey other =
    if decide (service = other) then Some (unusedOf (store s))
    else store s !! prefixKey other.
Proof.
  unfold allocated; cbn [store with_store].
  rewrite lookup_insert_ne by (intros H; by apply (prefixKey_not_nextUnused other)).
  rewrite lookup_insert. destruct (decide (service = other)) as [->|Hne].
  - by rewrite decide_True.
  - rewrite decide_False; [done|]. intros H. by apply Hne, prefixKey_inj.
Qed.

(** Below exhaustion and without I/O errors a call of [getPrefix] keeps the
    invariant: it returns the stored prefix, or assigns the counter value
    and advances the counter. *)
Lemma getPrefix_keeps_inv service n s :
  allocatorInv n s -> n < 65535 ->
  exists buffer n' s',
    getPrefix service s = (Ret buffer, s') /\
    allocatorInv n' s' /\ n <= n' <= n + 1 /\
    store s' !! prefixKey service = Some buffer /\
    (forall other b, store s !! prefixKey other = Some b ->
                     store s' !! prefixKey other = Some b).
Proof.
  intros (Hf & Hn & Hun & Hbelow & Huniq) Hlt.
  destruct (store s !! prefixKey service) as [buffer|] eqn:Hlook.
  - exists buffer, n, s. split; [by apply getPrefix_existing|].
    repeat split; try done; lia.
  - exists (be_bytes 2 n), (n + 1), (allocated service n s).
    split; [apply getPrefix_fresh_run; try done; lia|].
    split; [|split; [lia|split]].
    + split; [done|]. split; [lia|]. split.
      { unfold unusedOf, allocated; cbn [store with_store].
        by rewrite lookup_insert_eq. }
      split.
      * intros other b. rewrite allocated_lookup_prefix.
        case_decide.
        { intros [= <-]. exists n. rewrite Hun. split; [lia | done]. }
        intros Hb. destruct (Hbelow _ _ Hb) as (j & Hj & ->).
        exists j. split; [lia | done].
      * intros a b buffer. rewrite !allocated_lookup_prefix.
        repeat case_decide; subst; try done.
        { intros [= <-] Hb. destruct (Hbelow _ _ Hb) as (j & Hj & Heq).
          rewrite Hun in Heq. apply be_bytes_inj in Heq; [lia | | ];
            apply u16_range; lia. }
        { intros Ha [= <-]. destruct (Hbelow _ _ Ha) as (j & Hj & Heq).
          rewrite Hun in Heq. apply be_bytes_inj in Heq; [lia | | ];
            apply u16_range; lia. }
        apply Huniq.
    + rewrite allocated_lookup_prefix, decide_True by done. by rewrite Hun.
    + intros other b Hb. rewrite allocated_lookup_prefix.
      case_decide; [subst; congruence | done].
Qed.

(** ** Runs of the allocator *)

Lemma allocate_app l1 l2 s : allocate (l1 ++ l2) s = allocate l2 (allocate l1 s).
Proof. revert s. induction l1 as [|x l1 IH]; intros s; [done|]. simpl. apply IH. Qed.

(** Below exhaustion a run keeps the invariant, keeps every assignment made
    before or during the run, and leaves every requested name assigned. *)
Lemma allocate_keeps_inv names : forall n s,
  allocatorInv n s -> n + Z.of_nat (length names) <= 65535 ->
  exists n', allocatorInv n' (allocate names s) /\
    (forall other b, store s !! prefixKey other = Some b ->
                     store (allocate names s) !! prefixKey other = Some b) /\
    (forall service, service ∈ names ->
                     is_Some (store (allocate names s) !! prefixKey service)).
Proof.
  induction names as [|x names IH]; intros n s Hinv Hlen.
  - exists n. split; [done|]. split; [done|]. intros ? H. by apply elem_of_nil in H.
  - cbn [length] in Hlen. cbn [allocate].
    destruct (getPrefix_keeps_inv x n s Hinv) as (buffer & n1 & s1 & Hrun & Hinv1 & Hn1 & Hx & Hkeep1);
      [lia|].
    rewrite Hrun. cbn [snd].
    destruct (IH n1 s1 Hinv1) as (n' & Hinv' & Hkeep & Hall); [lia|].
    exists n'. split; [done|]. split.
    + intros other b Hb. by apply Hkeep, Hkeep1.
    + intros service [->|Hin]%elem_of_cons; [|by apply Hall].
      exists buffer. by apply Hkeep.
Qed.

(** What holds of the allocator short of exhaustion: in a run without I/O
    errors of at most 65534 calls on a new database, two distinct services
    hold distinct prefixes. *)
Lemma prefixes_unique_below_exhaustion names a b :
  Z.of_nat (length names) <= 65534 ->
  a ∈ names -> b ∈ names -> a <> b ->
  exists pa pb,
    store (allocate names emptyState) !! prefixKey a = Some pa /\
    store (allocate names emptyState) !! prefixKey b = Some pb /\
    pa <> pb.
Proof.
  intros Hlen Ha Hb Hne.
  destruct (allocate_keeps_inv names 1 emptyState allocatorInv_empty) as (n' & Hinv & _ & Hall);
    [lia|].
  destruct (Hall a Ha) as [pa Hpa]. destruct (Hall b Hb) as [pb Hpb].
  exists pa, pb. split; [done|]. split; [done|].
  intros ->. destruct Hinv as (_ & _ & _ & _ & Huniq). by apply Hne, (Huniq a b pb).
Qed.

(** ** Reaching exhaustion *)

Lemma append_cancel_l (p a b : string) : p +:+ a = p +:+ b -> a = b.
Proof. induction p as [|c p IH]; simpl; [done|]. intros [= H]. by apply IH. Qed.

Lemma serviceName_inj i j : serviceName i = serviceName j -> i = j.
Proof.
  unfold serviceName. intros H%append_cancel_l. by apply pretty_nat_inj in H.
Qed.

Lemma afterServices_inv k :
  Z.of_nat k <= 65534 ->
  allocatorInv (Z.of_nat k + 1) (afterServices k) /\
  (forall service buffer, store (afterServices k) !! prefixKey service = Some buffer ->
     exists j, (1 <= j <= k)%nat /\ service = serviceName j).
Proof.
  induction k as [|k IH]; intros Hk.
  - split; [exact allocatorInv_empty|].
    intros service buffer. unfold afterServices; cbn. by rewrite lookup_empty.
  - destruct IH as [Hinv Hnames]; [lia|].
    unfold afterServices. rewrite seq_S, map_app, allocate_app.
    fold (afterServices k). cbn [map allocate].
    assert (store (afterServices k) !! prefixKey (serviceName (1 + k)) = None) as Hfresh.
    { destruct (store (afterServices k) !! prefixKey (serviceName (1 + k))) eqn:E; [|done].
      destruct (Hnames _ _ E) as (j & Hj & Heq). apply serviceName_inj in Heq. lia. }
    pose proof Hinv as (Hf & Hn & Hun & Hbelow & Huniq).
    rewrite (getPrefix_fresh_run _ _ (Z.of_nat k + 1)) by (done || lia). cbn [snd].
    split.
    + destruct (getPrefix_keeps_inv (serviceName (1 + k)) _ _ Hinv)
        as (buffer & n' & s' & Hrun & Hinv' & Hn' & Hx & _); [lia|].
      rewrite (getPrefix_fresh_run _ _ (Z.of_nat k + 1)) in Hrun by (done || lia).
      inversion Hrun; subst buffer s'.
      assert (n' = Z.of_nat (S k) + 1) as ->; [|done].
      destruct Hinv' as (_ & _ & Hun' & _).
      unfold unusedOf, allocated in Hun'; cbn [store with_store] in Hun'.
      rewrite lookup_insert_eq in Hun'.
      apply be_bytes_inj in Hun'; [lia | apply u16_range; lia | apply u16_range; lia].
    + intros service buffer. rewrite allocated_lookup_prefix. case_decide.
      * intros _. exists (1 + k)%nat. split; [lia | done].
      * intros Hb. destruct (Hnames _ _ Hb) as (j & Hj & ->).
        exists j. split; [lia | done].
Qed.

(** After [k >= 1] assignments the counter is stored, and holds [k + 1]. *)
Lemma afterServices_counter k :
  (1 <= k)%nat -> Z.of_nat k <= 65534 ->
  faults (afterServices k) = [] /\
  store (afterServices k) !! nextUnusedKey = Some (be_bytes 2 (Z.of_nat k + 1)) /\
  (forall j, (k < j)%nat ->
     store (afterServices k) !! prefixKey (serviceName j) = None).
Proof.
  intros Hk1 Hk. destruct (afterServices_inv k Hk) as [(Hf & _ & Hun & _ & _) Hnames].
  split; [done|]. split.
  - unfold unusedOf in Hun.
    destruct (store (afterServices k) !! nextUnusedKey) as [buffer|]; [by rewrite Hun|].
    exfalso. change [0; 1] with (be_bytes 2 1) in Hun.
    apply be_bytes_inj in Hun; [lia | apply u16_range; lia | apply u16_range; lia].
  - intros j Hj.
    destruct (store (afterServices k) !! prefixKey (serviceName j)) eqn:E; [|done].
    destruct (Hnames _ _ E) as (i & Hi & Heq). apply serviceName_inj in Heq. lia.
Qed.

(** With the counter at 0xFFFF, two new services are both given 0xFFFF: each
    call writes the prefix and raises, and later calls return it. *)
Lemma two_services_at_exhaustion s a b :
  faults s = [] ->
  store s !! nextUnusedKey = Some [255; 255] ->
  store s !! prefixKey a = None ->
  store s !! prefixKey b = None ->
  a <> b ->
  exists s1 s2,
    getPrefix a s = (Thrown "RangeError", s1) /\
    getPrefix b s1 = (Thrown "RangeError", s2) /\
    getPrefix a s2 = (Ret [255; 255], s2) /\
    getPrefix b s2 = (Ret [255; 255], s2).
Proof.
  intros Hf Hnext Ha Hb Hab.
  pose proof (getPrefix_exhausted_run a s Hf Ha Hnext) as Hrun1.
  set (s1 := with_store (<[prefixKey a := [255; 255]]> (store s))
               (calls s ++ [CallPut (prefixKey a) [255; 255]]) [] s) in Hrun1.
  assert (store s1 !! prefixKey b = None) as Hb1.
  { unfold s1; cbn [store with_store]. rewrite lookup_insert_ne; [done|].
    intros H. by apply Hab, prefixKey_inj. }
  assert (store s1 !! nextUnusedKey = Some [255; 255]) as Hnext1.
  { unfold s1; cbn [store with_store].
    rewrite lookup_insert_ne by apply prefixKey_not_nextUnused. done. }
  pose proof (getPrefix_exhausted_run b s1 eq_refl Hb1 Hnext1) as Hrun2.
  set (s2 := with_store (<[prefixKey b := [255; 255]]> (store s1))
               (calls s1 ++ [CallPut (prefixKey b) [255; 255]]) [] s1) in Hrun2.
  exists s1, s2. split; [done|]. split; [done|]. split.
  - apply getPrefix_existing; [done|].
    unfold s2, s1; cbn [store with_store].
    rewrite lookup_insert_ne by (intros H; by apply Hab, eq_sym, prefixKey_inj).
    apply lookup_insert_eq.
  - apply getPrefix_existing; [done|].
    unfold s2; cbn [store with_store]. apply lookup_insert_eq.
Qed.

End UniquenessFacts.

(* ===================================================================== *)
(** * The allocator on concrete databases *)
(* ===================================================================== *)

Module AllocatorExamples.
Import Buf BufFacts Async DB Vocabulary Samples StoreFacts CommitFacts PrefixFacts UniquenessFacts.

Lemma getPrefix_idempotent_witness :
  faults emptyState = [] /\
  exists s',
    getPrefix "transaction" emptyState = (Ret [0; 1], s') /\
    store s' = <[nextUnusedKey := [0; 2]]> (<[prefixKey "transaction" := [0; 1]]> ∅) /\
    getPrefix "transaction" s' = (Ret [0; 1], s').
Proof.
  split; [reflexivity|].
  destruct (getPrefix_idempotent "transaction" emptyState eq_refl) as [_ Hfresh].
  assert (store emptyState !! prefixKey "transaction" = None) as Hnone
    by (vm_compute; reflexivity).
  assert (readUInt16BE 0 (unusedOf (store emptyState)) = Some 1) as Hread
    by (vm_compute; reflexivity).
  destruct (Hfresh Hnone 1 Hread ltac:(lia)) as (s' & Hrun & Hstore & _ & Hagain).
  exists s'. split; [exact Hrun|]. split; [exact Hstore | exact Hagain].
Defined.

Lemma getPrefix_exhausted_witness :
  exists s',
    getPrefix "address" exhaustedState = (Thrown "RangeError", s') /\
    store s' !! prefixKey "address" = Some [255; 255] /\
    store s' <> store exhaustedState /\
    store s' !! nextUnusedKey = Some [255; 255].
Proof.
  destruct (getPrefix_exhausted "address" exhaustedState)
    as (s' & Hrun & _ & Hprefix & Hchanged & Hnext & _).
  - reflexivity.
  - vm_compute; reflexivity.
  - vm_compute; reflexivity.
  - exists s'. repeat split; assumption.
Defined.

(** C2, the behaviour of the code where the claim fails. [getPrefix] writes
    the prefix before it advances the counter, so a call that stops between
    the two writes leaves a prefix assigned that the counter still offers.
    - Exhaustion: on the database reached by 65534 assignments the counter
      is 0xFFFF; the calls for two further, distinct services each write
      0xFFFF as prefix and raise, and later calls return 0xFFFF to both.
    - Failed write: on a new database, when the write of [nextUnused] of the
      first call reports an I/O error, the prefix 0x0001 of "address" is
      already stored; the next call gives 0x0001 to "transaction" as well,
      and both services keep it. *)
Theorem getPrefix_shared_prefix :
  (serviceName (Z.to_nat 65535) <> serviceName (Z.to_nat 65536) /\
   exists s1 s2,
     getPrefix (serviceName (Z.to_nat 65535)) (afterServices (Z.to_nat 65534)) =
       (Thrown "RangeError", s1) /\
     getPrefix (serviceName (Z.to_nat 65536)) s1 = (Thrown "RangeError", s2) /\
     getPrefix (serviceName (Z.to_nat 65535)) s2 = (Ret [255; 255], s2) /\
     getPrefix (serviceName (Z.to_nat 65536)) s2 = (Ret [255; 255], s2)) /\
  ("address" <> "transaction" /\
   exists s1 s2,
     getPrefix "address" failedWriteState = (Err "IO error: write failed", s1) /\
     store s1 !! prefixKey "address" = Some [0; 1] /\
     getPrefix "transaction" s1 = (Ret [0; 1], s2) /\
     getPrefix "address" s2 = (Ret [0; 1], s2) /\
     getPrefix "transaction" s2 = (Ret [0; 1], s2)).
Proof.
  split.
  - assert (serviceName (Z.to_nat 65535) <> serviceName (Z.to_nat 65536)) as Hab
      by (intros H; apply serviceName_inj in H; lia).
    split; [exact Hab|].
    destruct (afterServices_counter (Z.to_nat 65534)) as (Hf & Hnext & Hfresh); [lia | lia |].
    replace (Z.of_nat (Z.to_nat 65534) + 1) with 65535 in Hnext by lia.
    change (be_bytes 2 65535) with [255; 255] in Hnext.
    apply two_services_at_exhaustion.
    + exact Hf.
    + exact Hnext.
    + apply Hfresh. lia.
    + apply Hfresh. lia.
    + exact Hab.
  - split; [discriminate|].
    eexists _, _. split; [vm_compute; reflexivity|].
    split; [vm_compute; reflexivity|].
    split; [vm_compute; reflexivity|].
    split; vm_compute; reflexivity.
Qed.

End AllocatorExamples.

(* ===================================================================== *)
(** * More on the DB service: data path and subscriptions *)
(* ===================================================================== *)

Module SetupFacts.
Import Buf BufFacts Async DB Vocabulary Samples DBSetup UniquenessFacts.



Lemma indexOf_fresh emitter l :
  emitter ∉ l -> indexOf emitter (l ++ [emitter]) = Some (length l).
Proof.
  induction l as [|x l IH]; intros Hnot; cbn [indexOf app length].
  - by rewrite decide_True.
  - rewrite decide_False by (intros ->; apply Hnot; by left).
    rewrite IH by (intros Hin; apply Hnot; by right). done.
Qed.

Lemma delete_last (l : list Emitter) x : delete (length l) (l ++ [x]) = l.
Proof.
  induction l as [|y l IH]; [done|].
  change (y :: delete (length l) (l ++ [x]) = y :: l). by rewrite IH.
Qed.

(** What [splice] at the first index of [emitter] does to a list. *)
Lemma splice_first emitter l :
  match indexOf emitter l with
  | Some index =>
      length (filter (fun x => x = emitter) (delete index l)) =
        pred (length (filter (fun x => x = emitter) l)) /\
      filter (fun x => x <> emitter) (delete index l) = filter (fun x => x <> emitter) l /\
      emitter ∈ l
  | None => emitter ∉ l
  end.
Proof.
  induction l as [|x l IH]; cbn [indexOf].
  - apply not_elem_of_nil.
  - destruct (decide (x = emitter)) as [->|Hne].
    + change (delete 0%nat (emitter :: l)) with l.
      rewrite !filter_cons, decide_True by done.
      rewrite decide_False by (intros H; by apply H).
      split; [done|]. split; [done | by left].
    + destruct (indexOf emitter l) as [index|]; cbn [fmap option_fmap option_map].
      * destruct IH as (Hcount & Hother & Hin).
        change (delete (S index) (x :: l)) with (x :: delete index l).
        rewrite !filter_cons, !decide_False by done.
        rewrite !decide_True by done.
        split; [done|]. split; [by rewrite Hother | by right].
      * intros [->|Hin]%elem_of_cons; [done | by apply IH].
Qed.

Lemma filter_absent (emitter : Emitter) (l : list Emitter) :
  emitter ∉ l -> filter (fun x => x = emitter) l = [].
Proof.
  induction l as [|x l IH]; intros Hnot; [done|].
  rewrite filter_cons, decide_False by (intros ->; apply Hnot; by left).
  apply IH. intros Hin. apply Hnot. by right.
Qed.

(** Where [splice] at the first index of [emitter] cuts a list. *)
Lemma splice_first_occurrence emitter l :
  match indexOf emitter l with
  | Some index =>
      exists before after,
        l = before ++ emitter :: after /\ (emitter ∉ before) /\
        delete index l = before ++ after
  | None => emitter ∉ l
  end.
Proof.
  induction l as [|x l IH]; cbn [indexOf].
  - apply not_elem_of_nil.
  - destruct (decide (x = emitter)) as [->|Hne].
    + exists [], l. split; [done|]. split; [apply not_elem_of_nil | done].
    + destruct (indexOf emitter l) as [index|]; cbn [fmap option_fmap option_map].
      * destruct IH as (before & after & -> & Hnot & Hcut).
        exists (x :: before), after. split; [done|]. split.
        -- intros [Heq|Hin]%elem_of_cons; [by apply Hne | by apply Hnot].
        -- change (delete (S index) (x :: before ++ emitter :: after))
             with (x :: delete index (before ++ emitter :: after)).
           by rewrite Hcut.
      * intros [->|Hin]%elem_of_cons; [done | by apply IH].
Qed.

(** X2. [unsubscribe] drops exactly one subscription of the emitter, the
    oldest one: the named list loses the first occurrence of the emitter,
    what comes before it and what comes after it staying as they are, and
    is left alone when the emitter is not in it, the call then changing
    nothing. So the emitter occurs once less, the other emitters keep their
    subscriptions and their order, and the lists of the other names are
    untouched. *)
Theorem unsubscribe_removes_one (name : string) (emitter : Emitter)
    (subscriptions : gmap string (list Emitter)) (l : list Emitter) :
  subscriptions !! name = Some l ->
  exists subscriptions' l',
    unsubscribe name emitter subscriptions = Some subscriptions' /\
    subscriptions' !! name = Some l' /\
    ((emitter ∉ l) /\ l' = l \/
     exists before after,
       l = before ++ emitter :: after /\ (emitter ∉ before) /\ l' = before ++ after) /\
    length (filter (fun x => x = emitter) l') =
      pred (length (filter (fun x => x = emitter) l)) /\
    filter (fun x => x <> emitter) l' = filter (fun x => x <> emitter) l /\
    (emitter ∉ l -> subscriptions' = subscriptions) /\
    (forall other, other <> name -> subscriptions' !! other = subscriptions !! other).
Proof.
  intros Hl. unfold unsubscribe. rewrite Hl. cbn [mbind option_bind].
  pose proof (splice_first emitter l) as Hs.
  pose proof (splice_first_occurrence emitter l) as Hcut.
  destruct (indexOf emitter l) as [index|].
  - destruct Hs as (Hcount & Hother & Hin).
    exists (<[name := delete index l]> subscriptions), (delete index l).
    split; [done|]. split; [apply lookup_insert_eq|].
    split; [by right|].
    split; [done|]. split; [done|]. split; [done|].
    intros other Hne. by rewrite lookup_insert_ne.
  - exists subscriptions, l. split; [done|]. split; [done|].
    split; [by left|].
    by rewrite (filter_absent emitter l Hs).
Qed.

Lemma unsubscribe_removes_one_witness :
  exists subscriptions' l',
    unsubscribe "block" 7 (<["block" := [7; 3; 7]%nat]> noSubscriptions) = Some subscriptions' /\
    subscriptions' !! "block" = Some l' /\ l' = [3; 7]%nat.
Proof.
  destruct (unsubscribe_removes_one "block" 7 (<["block" := [7; 3; 7]%nat]> noSubscriptions)
              [7; 3; 7]%nat) as (subs' & l' & Hrun & Hlook & Hcut & _).
  - vm_compute; reflexivity.
  - exists subs', l'. split; [exact Hrun|]. split; [exact Hlook|].
    destruct Hcut as [[Hnot _]|(before & after & Heq & Hnot & ->)].
    + exfalso. apply Hnot. by left.
    + destruct before as [|x before].
      * by injection Heq as <-.
      * injection Heq as <- _. exfalso. apply Hnot. by left.
Defined.

(** X3. Subscribing an emitter that is not subscribed under the name and
    unsubscribing it again gives back the subscriptions one started from. *)
Theorem subscribe_unsubscribe (name : string) (emitter : Emitter)
    (subscriptions : gmap string (list Emitter)) (l : list Emitter) :
  subscriptions !! name = Some l -> emitter ∉ l ->
  exists subscribed,
    subscribe name emitter subscriptions = Some subscribed /\
    subscribed !! name = Some (l ++ [emitter]) /\
    unsubscribe name emitter subscribed = Some subscriptions.
Proof.
  intros Hl Hnot. unfold subscribe. rewrite Hl. cbn [mbind option_bind].
  eexists. split; [reflexivity|]. split; [apply lookup_insert_eq|].
  unfold unsubscribe. rewrite lookup_insert_eq. cbn [mbind option_bind].
  rewrite indexOf_fresh by done. rewrite delete_last, insert_insert_eq.
  by rewrite insert_id.
Qed.

Lemma subscribe_unsubscribe_witness :
  exists subscribed,
    subscribe "transaction" 4 noSubscriptions = Some subscribed /\
    subscribed !! "transaction" = Some ([] ++ [4%nat]) /\
    unsubscribe "transaction" 4 subscribed = Some noSubscriptions.
Proof.
  apply (subscribe_unsubscribe "transaction" 4 noSubscriptions []).
  - vm_compute; reflexivity.
  - apply not_elem_of_nil.
Defined.

End SetupFacts.

(* ===================================================================== *)
(** * More on start-up *)
(* ===================================================================== *)

Module StartMoreFacts.
Import Buf BufFacts Async DB Vocabulary Samples StartSamples StoreFacts TipFacts
  ApplierFacts CommitFacts StartFacts.

Lemma readUIntBE_short n offset b :
  (length b < offset + n)%nat -> readUIntBE n offset b = None.
Proof. intros H. unfold readUIntBE. by rewrite decide_False by lia. Qed.

Lemma version_key_not_tip : dbPrefix +:+ "version" <> dbPrefix +:+ "tip".
Proof. discriminate. Qed.

Lemma version_key_not_concurrentTip :
  dbPrefix +:+ "version" <> dbPrefix +:+ "concurrentTip".
Proof. discriminate. Qed.

(** The store after a batch that ends with the two tip operations. *)
Lemma apply_batch_tips ops t ct m :
  type t = put -> key t = dbPrefix +:+ "tip" ->
  type ct = put -> key ct = dbPrefix +:+ "concurrentTip" ->
  apply_batch (ops ++ [t; ct]) m !! (dbPrefix +:+ "tip") = Some (value t) /\
  apply_batch (ops ++ [t; ct]) m !! (dbPrefix +:+ "concurrentTip") = Some (value ct).
Proof.
  intros Ht Hkt Hct Hkct. rewrite apply_batch_app.
  assert (forall m', apply_batch [t; ct] m' =
            <[dbPrefix +:+ "concurrentTip" := value ct]>
              (<[dbPrefix +:+ "tip" := value t]> m')) as ->.
  { intros m'. unfold apply_batch. cbn [fold_left]. unfold apply_op.
    by rewrite Ht, Hct, Hkt, Hkct. }
  split.
  - rewrite lookup_insert_ne by (intros H; by apply tip_keys_differ).
    apply lookup_insert_eq.
  - apply lookup_insert_eq.
Qed.

Section WithNode.
Variable services : list Service.
Variable completion : list Service -> list Service.
Variable bitcoind_getBlock : nat -> string -> Error + Block.
Variable dataPath : string.

(** A commit whose handlers all succeed. *)
Lemma applyBlock_ok block connect s t ct :
  faults s = [] ->
  (forall svc e, svc ∈ completion services ->
     ~ fails concurrentBlockHandler block connect svc e) ->
  (forall svc e, svc ∈ services -> ~ fails blockHandler block connect svc e) ->
  getTipOperation block connect = Some t ->
  getConcurrentTipOperation block connect = Some ct ->
  applyBlock services completion block connect s =
    (Ret tt,
     with_store (apply_batch (batchOf services completion block connect t ct) (store s))
       (calls s ++ [CallBatch (batchOf services completion block connect t ct)]) [] s).
Proof.
  intros Hf Hconc Hser Ht Hct. rewrite applyBlock_unfold.
  unfold bind, getConcurrentBlockOperations, getSerialBlockOperations, ofSum.
  rewrite !eachHandler_ok by done.
  cbn [ret app]. rewrite Ht, Hct. cbn [orThrow ret].
  rewrite store_batch_ok by done. unfold batchOf. by rewrite <- !app_assoc.
Qed.


(** X4. A database stamped by [_setVersion] passes [_checkVersion], with or
    without a tip: the write stores the four bytes 00 00 00 02 under the
    version key and nothing else, and the check that follows reads them back
    as the expected version. *)
Theorem _setVersion_then_checkVersion (s : State) :
  faults s = [] ->
  exists s',
    _setVersion s = (Ret tt, s') /\
    store s' = <[dbPrefix +:+ "version" := [0; 0; 0; 2]]> (store s) /\
    calls s' = calls s ++ [CallPut (dbPrefix +:+ "version") [0; 0; 0; 2]] /\
    _checkVersion dataPath s' = (Ret tt, s').
Proof.
  intros Hf. unfold _setVersion, bind. cbn [orThrow writeUInt32BE ret].
  change (writeUInt32BE version) with (Some [0; 0; 0; 2]). cbn [orThrow ret].
  rewrite store_put_ok by done.
  eexists. split; [reflexivity|]. cbn [store calls with_store].
  split; [done|]. split; [done|].
  unfold _checkVersion, bind. rewrite store_get_ok by done.
  cbn [store with_store].
  destruct (<[dbPrefix +:+ "version":=[0; 0; 0; 2]]> (store s) !! (dbPrefix +:+ "tip"));
    [|done].
  rewrite store_get_ok by done. cbn [store with_store].
  rewrite lookup_insert_eq. reflexivity.
Qed.

(** The tip operations of genesis, decorated with height 0. *)
Lemma genesis_tip_operations (g : Block) (h : Buffer) :
  wf h -> hash g = toHex h ->
  getTipOperation (set_height 0 g) true =
    Some {| type := put; key := dbPrefix +:+ "tip"; value := h ++ [0; 0; 0; 0] |} /\
  getConcurrentTipOperation (set_height 0 g) true =
    Some {| type := put; key := dbPrefix +:+ "concurrentTip"; value := h ++ [0; 0; 0; 0] |}.
Proof.
  intros Hwf Hhash.
  unfold getTipOperation, getConcurrentTipOperation. cbn [__height hash set_height].
  change (writeUInt32BE 0) with (Some [0; 0; 0; 0]).
  rewrite Hhash, fromHex_toHex by done. done.
Qed.

(** The run of [loadTip] on a database without a tip, when the handlers
    accept genesis. *)
Lemma loadTip_absent_ok s h :
  faults s = [] ->
  store s !! (dbPrefix +:+ "tip") = None ->
  wf h -> hash (genesis s) = toHex h ->
  (forall svc e, svc ∈ completion services ->
     ~ fails concurrentBlockHandler (set_height 0 (genesis s)) true svc e) ->
  (forall svc e, svc ∈ services ->
     ~ fails blockHandler (set_height 0 (genesis s)) true svc e) ->
  let g := set_height 0 (genesis s) in
  let batch :=
    batchOf services completion g true
      {| type := put; key := dbPrefix +:+ "tip"; value := h ++ [0; 0; 0; 0] |}
      {| type := put; key := dbPrefix +:+ "concurrentTip"; value := h ++ [0; 0; 0; 0] |} in
  loadTip services completion bitcoind_getBlock s =
    (Ret tt,
     with_emitted (emitted s ++ [("addblock", g)])
       (with_store (apply_batch batch (store s)) (calls s ++ [CallBatch batch]) []
          (with_tip (Some g) g s))).
Proof.
  intros Hf Htip Hwf Hhash Hconc Hser g batch. subst g batch.
  destruct (genesis_tip_operations (genesis s) h Hwf Hhash) as [Ht Hct].
  unfold loadTip, bind. rewrite store_get_ok by done. rewrite Htip.
  unfold modify, gets. cbn [genesis with_tip].
  change (connectBlock services completion (set_height 0 (genesis s)))
    with (applyBlock services completion (set_height 0 (genesis s)) true).
  rewrite (applyBlock_ok (set_height 0 (genesis s)) true
             (with_tip (Some (set_height 0 (genesis s))) (set_height 0 (genesis s)) s)
             _ _ Hf Hconc Hser Ht Hct).
  reflexivity.
Qed.

(** X5. Start on a new database (no tip key) of a node whose handlers accept
    the genesis block: the service writes the version, commits genesis in one
    batch whose last two operations put the genesis hash followed by height
    0 under the tip and the concurrentTip key, emits [addblock] for genesis,
    reads the concurrent tip back from the store and asks bitcoind for it.
    It ends with both tips set to genesis at height 0, and these two store
    requests are the only ones. *)
Theorem start_fresh (s : State) (h : Buffer) (upstream : Block) :
  faults s = [] ->
  store s !! (dbPrefix +:+ "tip") = None ->
  wf h -> length h = 32%nat -> hash (genesis s) = toHex h ->
  completion services ≡ₚ services ->
  (forall svc e, svc ∈ services ->
     ~ fails concurrentBlockHandler (set_height 0 (genesis s)) true svc e /\
     ~ fails blockHandler (set_height 0 (genesis s)) true svc e) ->
  bitcoind_getBlock (rpcs s) (hash (genesis s)) = inr upstream ->
  exists s' ops,
    start services completion bitcoind_getBlock dataPath s = (Ret tt, s') /\
    calls s' = calls s ++
      [CallPut (dbPrefix +:+ "version") [0; 0; 0; 2];
       CallBatch (ops ++
         [ {| type := put; key := dbPrefix +:+ "tip"; value := h ++ [0; 0; 0; 0] |};
           {| type := put; key := dbPrefix +:+ "concurrentTip";
              value := h ++ [0; 0; 0; 0] |} ])] /\
    store s' !! (dbPrefix +:+ "tip") = Some (h ++ [0; 0; 0; 0]) /\
    store s' !! (dbPrefix +:+ "concurrentTip") = Some (h ++ [0; 0; 0; 0]) /\
    tip s' = Some (set_height 0 (genesis s)) /\
    concurrentTip s' = Some (set_height 0 upstream) /\
    emitted s' = emitted s ++ [("addblock", set_height 0 (genesis s))].
Proof.
  intros Hf Htip Hwf Hlen Hhash Hperm Hok Hrpc.
  set (g := set_height 0 (genesis s)).
  set (t := {| type := put; key := dbPrefix +:+ "tip"; value := h ++ [0; 0; 0; 0] |}).
  set (ct := {| type := put; key := dbPrefix +:+ "concurrentTip";
                value := h ++ [0; 0; 0; 0] |}).
  set (ops := concat (map (opsOf concurrentBlockHandler g true) (completion services)) ++
              concat (map (opsOf blockHandler g true) services)).
  assert (batchOf services completion g true t ct = ops ++ [t; ct]) as Hbatch
    by (unfold batchOf, ops; by rewrite <- app_assoc).
  set (s1 := with_store (<[dbPrefix +:+ "version" := [0; 0; 0; 2]]> (store s))
               (calls s ++ [CallPut (dbPrefix +:+ "version") [0; 0; 0; 2]]) [] s).
  assert (_setVersion s = (Ret tt, s1)) as Hset.
  { unfold _setVersion, bind. change (writeUInt32BE version) with (Some [0; 0; 0; 2]).
    cbn [orThrow ret]. by rewrite store_put_ok. }
  set (s2 := with_emitted (emitted s1 ++ [("addblock", g)])
               (with_store (apply_batch (ops ++ [t; ct]) (store s1))
                  (calls s1 ++ [CallBatch (ops ++ [t; ct])]) []
                  (with_tip (Some g) g s1))).
  assert (loadTip services completion bitcoind_getBlock s1 = (Ret tt, s2)) as Hload.
  { unfold s2. rewrite <- Hbatch.
    apply (loadTip_absent_ok s1 h); try done.
    - unfold s1; cbn [store with_store].
      rewrite lookup_insert_ne by apply version_key_not_tip. done.
    - intros svc e Hin. apply Hok. by rewrite <- Hperm.
    - intros svc e Hin. by apply Hok. }
  destruct (apply_batch_tips ops t ct (store s1)) as [Hlt Hlct]; try done.
  assert (readUInt32BE 32 (h ++ [0; 0; 0; 0]) = Some 0) as Hread.
  { unfold readUInt32BE. change [0; 0; 0; 0] with (be_bytes 4 0 ++ []).
    apply readUIntBE_at; [done | lia]. }
  assert (slice 0 32 (h ++ [0; 0; 0; 0]) = h) as Hslice.
  { unfold slice. rewrite drop_0. change (32 - 0)%nat with 32%nat.
    by apply take_app_length'. }
  exists (with_concurrentTip (Some (set_height 0 upstream)) (genesis s2)
            (with_rpcs (S (rpcs s2)) s2)), ops.
  split.
  - unfold start, bind.
    rewrite (_checkVersion_fresh dataPath s Hf Htip), Hset, Hload.
    apply (loadConcurrentTip_present bitcoind_getBlock s2 (h ++ [0; 0; 0; 0]) 0 upstream);
      try done.
    by rewrite Hslice, <- Hhash.
  - cbn [calls store tip concurrentTip emitted with_concurrentTip with_rpcs
         with_emitted with_store with_tip s2 s1].
    rewrite <- app_assoc. repeat split; done.
Qed.

(** X6. Start on an existing database of the current version (version 2,
    two readable tip records) submits no batch and emits nothing: its only
    store request rewrites the version, and the two tips are set to the
    blocks bitcoind returns for the stored hashes, with the stored heights. *)
Theorem start_existing (s : State) (versionData tipData concurrentData : Buffer)
    (height concurrentHeight : Z) (b1 b2 : Block) :
  faults s = [] ->
  store s !! (dbPrefix +:+ "version") = Some versionData ->
  readUInt32BE 0 versionData = Some 2 ->
  store s !! (dbPrefix +:+ "tip") = Some tipData ->
  readUInt32BE 32 tipData = Some height ->
  store s !! (dbPrefix +:+ "concurrentTip") = Some concurrentData ->
  readUInt32BE 32 concurrentData = Some concurrentHeight ->
  bitcoind_getBlock (rpcs s) (toHex (slice 0 32 tipData)) = inr b1 ->
  bitcoind_getBlock (S (rpcs s)) (toHex (slice 0 32 concurrentData)) = inr b2 ->
  exists s',
    start services completion bitcoind_getBlock dataPath s = (Ret tt, s') /\
    calls s' = calls s ++ [CallPut (dbPrefix +:+ "version") [0; 0; 0; 2]] /\
    store s' = <[dbPrefix +:+ "version" := [0; 0; 0; 2]]> (store s) /\
    tip s' = Some (set_height height b1) /\
    concurrentTip s' = Some (set_height concurrentHeight b2) /\
    emitted s' = emitted s.
Proof.
  intros Hf Hv Hvread Htip Hread Hctip Hcread Hrpc1 Hrpc2.
  set (s1 := with_store (<[dbPrefix +:+ "version" := [0; 0; 0; 2]]> (store s))
               (calls s ++ [CallPut (dbPrefix +:+ "version") [0; 0; 0; 2]]) [] s).
  assert (_setVersion s = (Ret tt, s1)) as Hset.
  { unfold _setVersion, bind. change (writeUInt32BE version) with (Some [0; 0; 0; 2]).
    cbn [orThrow ret]. by rewrite store_put_ok. }
  set (s2 := with_tip (Some (set_height height b1)) (genesis s1) (with_rpcs (S (rpcs s1)) s1)).
  assert (loadTip services completion bitcoind_getBlock s1 = (Ret tt, s2)) as Hload.
  { apply (loadTip_present services completion bitcoind_getBlock s1 tipData); try done.
    unfold s1; cbn [store with_store].
    rewrite lookup_insert_ne by apply version_key_not_tip. done. }
  eexists. split.
  - unfold start, bind.
    rewrite (_checkVersion_current dataPath s tipData versionData) by done.
    rewrite Hset, Hload.
    apply (loadConcurrentTip_present bitcoind_getBlock s2 concurrentData concurrentHeight b2);
      try done.
    unfold s2, s1; cbn [store with_store with_tip with_rpcs].
    rewrite lookup_insert_ne by apply version_key_not_concurrentTip. done.
  - cbn [calls store tip concurrentTip emitted with_concurrentTip with_rpcs
         with_emitted with_store with_tip s2 s1].
    repeat split; done.
Qed.

(** The three attempts of [async.retry] on [getBlock]. *)
Lemma getBlock_retry h s :
  retry 2 (getBlock bitcoind_getBlock h) s =
    match bitcoind_getBlock (rpcs s) h with
    | inr b => (Ret b, with_rpcs (S (rpcs s)) s)
    | inl _ =>
        match bitcoind_getBlock (S (rpcs s)) h with
        | inr b => (Ret b, with_rpcs (S (S (rpcs s))) s)
        | inl _ =>
            match bitcoind_getBlock (S (S (rpcs s))) h with
            | inr b => (Ret b, with_rpcs (S (S (S (rpcs s)))) s)
            | inl e => (Err e, with_rpcs (S (S (S (rpcs s)))) s)
            end
        end
    end.
Proof.
  cbn [retry]. unfold getBlock at 1.
  destruct (bitcoind_getBlock (rpcs s) h); [|done].
  unfold getBlock at 1. cbn [rpcs with_rpcs].
  destruct (bitcoind_getBlock (S (rpcs s)) h); [|done].
  unfold getBlock at 1. cbn [rpcs with_rpcs].
  destruct (bitcoind_getBlock (S (S (rpcs s))) h); done.
Qed.

(** X7. Loading a stored tip never writes: with a readable tip record,
    [loadTip] asks bitcoind for the stored hash at least once and at most
    three times, stops at the first answer, and leaves the store, the
    requests and the events as they were. It completes with the tip set to
    the first block served, decorated with the stored height, every earlier
    attempt having failed; or, after three failures, it reports the third
    error and leaves the tip as it was. *)
Theorem loadTip_retry_bound (s : State) (tipData : Buffer) (height : Z) :
  faults s = [] ->
  store s !! (dbPrefix +:+ "tip") = Some tipData ->
  readUInt32BE 32 tipData = Some height ->
  exists r s',
    loadTip services completion bitcoind_getBlock s = (r, s') /\
    store s' = store s /\ calls s' = calls s /\ emitted s' = emitted s /\
    (rpcs s < rpcs s' <= rpcs s + 3)%nat /\
    (forall i, (rpcs s <= i < pred (rpcs s'))%nat ->
       exists e, bitcoind_getBlock i (toHex (slice 0 32 tipData)) = inl e) /\
    ((r = Ret tt /\
      exists b, bitcoind_getBlock (pred (rpcs s')) (toHex (slice 0 32 tipData)) = inr b /\
                tip s' = Some (set_height height b)) \/
     (exists e, r = Err e /\ rpcs s' = (rpcs s + 3)%nat /\
                bitcoind_getBlock (pred (rpcs s')) (toHex (slice 0 32 tipData)) = inl e /\
                tip s' = tip s)).
Proof.
  intros Hf Htip Hread. unfold loadTip, bind.
  rewrite store_get_ok by done. rewrite Htip, Hread. cbn [orThrow ret].
  rewrite getBlock_retry.
  destruct (bitcoind_getBlock (rpcs s) (toHex (slice 0 32 tipData))) as [e0|b0] eqn:H0.
  - destruct (bitcoind_getBlock (S (rpcs s)) (toHex (slice 0 32 tipData))) as [e1|b1] eqn:H1.
    + destruct (bitcoind_getBlock (S (S (rpcs s))) (toHex (slice 0 32 tipData)))
        as [e2|b2] eqn:H2.
      * eexists _, _. split; [reflexivity|].
        cbn [store calls emitted rpcs tip with_tip with_rpcs genesis Nat.pred].
        do 4 (split; [done || lia|]). split.
        { intros i Hi.
          assert (i = rpcs s \/ i = S (rpcs s)) as [->| ->] by lia; eauto. }
        right. exists e2. repeat split; try done; lia.
      * eexists _, _. split; [reflexivity|].
        cbn [store calls emitted rpcs tip with_tip with_rpcs genesis Nat.pred].
        do 4 (split; [done || lia|]). split.
        { intros i Hi.
          assert (i = rpcs s \/ i = S (rpcs s)) as [->| ->] by lia; eauto. }
        left. split; [done|]. by exists b2.
    + eexists _, _. split; [reflexivity|].
        cbn [store calls emitted rpcs tip with_tip with_rpcs genesis Nat.pred].
      do 4 (split; [done || lia|]). split.
      { intros i Hi. assert (i = rpcs s) as -> by lia. eauto. }
      left. split; [done|]. by exists b1.
  - eexists _, _. split; [reflexivity|].
        cbn [store calls emitted rpcs tip with_tip with_rpcs genesis Nat.pred].
    do 4 (split; [done || lia|]). split.
    { intros i Hi. lia. }
    left. split; [done|]. by exists b0.
Qed.

(** X8. A tip record shorter than 36 bytes is not decoded: the read of the
    height at offset 32 raises, so [loadTip] (and [loadConcurrentTip] for its
    key) ends by an exception, without invoking its callback, without asking
    bitcoind and without changing anything. *)
Theorem load_short_record (s : State) (tipData : Buffer) :
  faults s = [] -> (length tipData < 36)%nat ->
  (store s !! (dbPrefix +:+ "tip") = Some tipData ->
   loadTip services completion bitcoind_getBlock s = (Thrown "RangeError", s)) /\
  (store s !! (dbPrefix +:+ "concurrentTip") = Some tipData ->
   loadConcurrentTip bitcoind_getBlock s = (Thrown "RangeError", s)).
Proof.
  intros Hf Hlen.
  assert (readUInt32BE 32 tipData = None) as Hread
    by (apply readUIntBE_short; lia).
  split; intros Hstore.
  - unfold loadTip, bind. rewrite store_get_ok by done. by rewrite Hstore, Hread.
  - unfold loadConcurrentTip, bind. rewrite store_get_ok by done.
    by rewrite Hstore, Hread.
Qed.


End WithNode.

Lemma _setVersion_then_checkVersion_witness :
  faults legacyState = [] /\
  exists s',
    _setVersion legacyState = (Ret tt, s') /\
    _checkVersion "/data/bitcore-node.db" s' = (Ret tt, s').
Proof.
  split; [reflexivity|].
  destruct (_setVersion_then_checkVersion "/data/bitcore-node.db" legacyState eq_refl)
    as (s' & Hset & _ & _ & Hcheck).
  exists s'. split; [exact Hset | exact Hcheck].
Defined.

Lemma start_fresh_witness :
  exists s',
    start sampleServices (@rev Service) healthyBitcoind "/data/bitcore-node.db" emptyState =
      (Ret tt, s') /\
    store s' !! (dbPrefix +:+ "tip") = Some (sampleHash ++ [0; 0; 0; 0]) /\
    store s' !! (dbPrefix +:+ "concurrentTip") = Some (sampleHash ++ [0; 0; 0; 0]) /\
    tip s' = Some (set_height 0 (genesis emptyState)).
Proof.
  destruct (start_fresh sampleServices (@rev Service) healthyBitcoind
              "/data/bitcore-node.db" emptyState sampleHash
              {| hash := hash (genesis emptyState); header := header sampleBlock;
                 __height := 0 |})
    as (s' & ops & Hrun & _ & Htip & Hctip & Hmem & _).
  - reflexivity.
  - vm_compute; reflexivity.
  - exact sampleHash_wf.
  - reflexivity.
  - reflexivity.
  - symmetry; apply Permutation_rev.
  - apply sampleServices_never_fail.
  - reflexivity.
  - exists s'. repeat split; assumption.
Defined.

Lemma start_existing_witness :
  exists s',
    start sampleServices (@rev Service) healthyBitcoind "/data/bitcore-node.db" syncedState =
      (Ret tt, s') /\
    calls s' = [CallPut (dbPrefix +:+ "version") [0; 0; 0; 2]] /\
    emitted s' = [].
Proof.
  destruct (start_existing sampleServices (@rev Service) healthyBitcoind
              "/data/bitcore-node.db" syncedState [0; 0; 0; 2] sampleTip sampleTip
              70000 70000
              {| hash := toHex sampleHash; header := header sampleBlock; __height := 0 |}
              {| hash := toHex sampleHash; header := header sampleBlock; __height := 0 |})
    as (s' & Hrun & Hcalls & _ & _ & _ & Hev); try (vm_compute; reflexivity).
  exists s'. repeat split; assumption.
Defined.

Lemma loadTip_retry_bound_witness :
  exists r s',
    loadTip sampleServices (@rev Service) recoveringBitcoind syncedState = (r, s') /\
    store s' = store syncedState /\ (rpcs syncedState < rpcs s' <= rpcs syncedState + 3)%nat.
Proof.
  destruct (loadTip_retry_bound sampleServices (@rev Service) recoveringBitcoind
              syncedState sampleTip 70000)
    as (r & s' & Hrun & Hstore & _ & _ & Hrpcs & _); try (vm_compute; reflexivity).
  exists r, s'. repeat split; try assumption; apply Hrpcs.
Defined.

Lemma load_short_record_witness :
  loadTip sampleServices (@rev Service) healthyBitcoind truncatedTipState =
    (Thrown "RangeError", truncatedTipState).
Proof.
  destruct (load_short_record sampleServices (@rev Service) healthyBitcoind
              truncatedTipState sampleHash) as [Htip _].
  - reflexivity.
  - simpl. lia.
  - apply Htip. vm_compute; reflexivity.
Defined.


End StartMoreFacts.

(* ===================================================================== *)
(** * More on the prefix allocator *)
(* ===================================================================== *)

Module AllocatorMoreFacts.
Import Buf BufFacts Async DB Vocabulary Samples StartSamples StoreFacts PrefixFacts
  UniquenessFacts.

(** A database that the allocator has not touched yet. *)
Lemma allocatorInv_new s :
  faults s = [] ->
  store s !! nextUnusedKey = None ->
  (forall service, store s !! prefixKey service = None) ->
  allocatorInv 1 s.
Proof.
  intros Hf Hnext Hnone. split; [done|]. split; [lia|]. split.
  - unfold unusedOf. by rewrite Hnext.
  - split; intros *; by rewrite Hnone.
Qed.

(** X10. On a database the allocator has not touched, after any run of at
    most 65534 calls without I/O errors, every service that asked holds a
    prefix of exactly two bytes, different from the system prefix 00 00 and
    from the prefix of every other service, and a further call for that
    service returns it without changing the state. *)
Theorem allocator_assigns_distinct_prefixes (s : State) (names : list string)
    (a : string) :
  faults s = [] ->
  store s !! nextUnusedKey = None ->
  (forall service, store s !! prefixKey service = None) ->
  Z.of_nat (length names) <= 65534 ->
  a ∈ names ->
  exists pa,
    store (allocate names s) !! prefixKey a = Some pa /\
    length pa = 2%nat /\ pa <> [0; 0] /\
    getPrefix a (allocate names s) = (Ret pa, allocate names s) /\
    (forall b, b <> a -> store (allocate names s) !! prefixKey b <> Some pa).
Proof.
  intros Hf Hnext Hnone Hlen Ha.
  destruct (allocate_keeps_inv names 1 s (allocatorInv_new s Hf Hnext Hnone))
    as (n' & Hinv & _ & Hall); [lia|].
  destruct (Hall a Ha) as [pa Hpa]. exists pa.
  destruct Hinv as (Hf' & Hn' & _ & Hbelow & Huniq).
  destruct (Hbelow a pa Hpa) as (j & Hj & ->).
  split; [done|]. split; [apply length_be_bytes|]. split.
  - change [0; 0] with (be_bytes 2 0). intros Heq.
    apply be_bytes_inj in Heq; [lia | apply u16_range; lia | apply u16_range; lia].
  - split; [by apply getPrefix_existing|].
    intros b Hne Hb. apply Hne. by apply (Huniq b a (be_bytes 2 j)).
Qed.

Lemma allocator_assigns_distinct_prefixes_witness :
  exists pa,
    store (allocate ["timestamp"; "address"; "transaction"; "address"] emptyState)
      !! prefixKey "address" = Some pa /\
    length pa = 2%nat /\ pa <> [0; 0].
Proof.
  destruct (allocator_assigns_distinct_prefixes emptyState
              ["timestamp"; "address"; "transaction"; "address"] "address")
    as (pa & Hpa & Hlen & Hsys & _).
  - reflexivity.
  - vm_compute; reflexivity.
  - intros service. apply lookup_empty.
  - simpl. lia.
  - right. by left.
  - exists pa. repeat split; assumption.
Defined.

(** X11. A prefix is never taken back or changed: what a service holds
    after a run of calls is what it holds after any longer run, as long as
    the whole run stays within 65534 calls and meets no I/O error. *)
Theorem allocator_prefix_stable (s : State) (names later : list string)
    (a : string) (pa : Buffer) :
  faults s = [] ->
  store s !! nextUnusedKey = None ->
  (forall service, store s !! prefixKey service = None) ->
  Z.of_nat (length (names ++ later)) <= 65534 ->
  store (allocate names s) !! prefixKey a = Some pa ->
  store (allocate (names ++ later) s) !! prefixKey a = Some pa /\
  getPrefix a (allocate (names ++ later) s) = (Ret pa, allocate (names ++ later) s).
Proof.
  intros Hf Hnext Hnone Hlen Hpa. rewrite length_app in Hlen.
  destruct (allocate_keeps_inv names 1 s (allocatorInv_new s Hf Hnext Hnone))
    as (n1 & Hinv1 & _ & _); [lia|].
  assert (n1 <= 1 + Z.of_nat (length names)) as Hn1.
  { clear -Hinv1 Hf Hnext Hnone Hlen.
    revert s Hf Hnext Hnone Hinv1 Hlen.
    cut (forall (l : list string) n s, allocatorInv n s ->
           n + Z.of_nat (length l) <= 65535 ->
           forall n', allocatorInv n' (allocate l s) -> n' <= n + Z.of_nat (length l)).
    { intros Hcut s Hf Hnext Hnone Hinv1 Hlen.
      apply (Hcut names 1 s (allocatorInv_new s Hf Hnext Hnone)); [lia | done]. }
    induction l as [|x l IH]; intros n s Hinv Hle n' Hinv'.
    - cbn [allocate length] in *.
      destruct Hinv as (_ & ? & Hu & _), Hinv' as (_ & ? & Hu' & _).
      rewrite Hu in Hu'. apply be_bytes_inj in Hu'; [lia | | ]; apply u16_range; lia.
    - cbn [allocate length] in *.
      destruct (getPrefix_keeps_inv x n s Hinv) as (buf & m & s1 & Hrun & Hi & Hm & _);
        [lia|].
      rewrite Hrun in Hinv'. cbn [snd] in Hinv'.
      pose proof (IH m s1 Hi ltac:(lia) n' Hinv'). lia. }
  rewrite allocate_app.
  destruct (allocate_keeps_inv later n1 (allocate names s) Hinv1)
    as (n2 & Hinv2 & Hkeep & _); [lia|].
  split; [by apply Hkeep|].
  apply getPrefix_existing; [apply Hinv2 | by apply Hkeep].
Qed.

Lemma allocator_prefix_stable_witness :
  store (allocate (["address"] ++ ["transaction"; "web"]) emptyState)
    !! prefixKey "address" = Some [0; 1] /\
  getPrefix "address" (allocate (["address"] ++ ["transaction"; "web"]) emptyState) =
    (Ret [0; 1], allocate (["address"] ++ ["transaction"; "web"]) emptyState).
Proof.
  apply (allocator_prefix_stable emptyState ["address"] ["transaction"; "web"]
           "address" [0; 1]).
  - reflexivity.
  - vm_compute; reflexivity.
  - intros service. apply lookup_empty.
  - simpl. lia.
  - vm_compute; reflexivity.
Defined.

(** X12. When one of the two store reads of [getPrefix] reports an I/O
    error, that error is handed to the callback and no write is requested:
    the store keeps its contents. *)
Theorem getPrefix_read_error (service : string) (s : State) (e : Error)
    (rest : list (option Error)) :
  faults s = Some e :: rest \/
  (faults s = None :: Some e :: rest /\ store s !! prefixKey service = None) ->
  exists s',
    getPrefix service s = (Err e, s') /\
    store s' = store s /\ calls s' = calls s /\ faults s' = rest.
Proof.
  intros [Hf | [Hf Hnone]].
  - unfold getPrefix, bind, store_get, next_fault. rewrite Hf.
    eexists. split; [reflexivity|]. done.
  - unfold getPrefix, bind at 1. unfold store_get at 1, next_fault. rewrite Hf, Hnone.
    unfold bind at 1. unfold store_get, next_fault. cbn [faults with_store].
    eexists. split; [reflexivity|]. done.
Qed.

Lemma getPrefix_read_error_witness :
  exists s',
    getPrefix "address" unreadableState = (Err "IO error: read failed", s') /\
    store s' = store unreadableState /\ calls s' = calls unreadableState /\ faults s' = [].
Proof.
  apply (getPrefix_read_error "address" unreadableState "IO error: read failed" []).
  left. reflexivity.
Defined.

End AllocatorMoreFacts.

(* ===================================================================== *)
(** * Properties of the transaction index *)
(* ===================================================================== *)

Module IndexFacts.
Import Buf BufFacts Async StoreFacts TransactionService TransactionFacts TransactionIndex.
Import IndexVocabulary IndexSamples.

Lemma keyOf_inj a b : wf a -> wf b -> keyOf a = keyOf b -> a = b.
Proof.
  intros Ha. revert b. induction Ha as [|x a Hx _ IH]; intros b Hb Heq.
  - destruct b; [done | discriminate Heq].
  - destruct Hb as [|y b Hy Hb]; [discriminate Heq|].
    cbn [keyOf] in Heq. injection Heq as Hc Hrest.
    f_equal; [|by apply IH].
    unfold is_byte in Hx, Hy.
    assert (Z.to_N x = Z.to_N y) as Hn.
    { rewrite <- (N_ascii_embedding (Z.to_N x)), <- (N_ascii_embedding (Z.to_N y)) by lia.
      by rewrite Hc. }
    lia.
Qed.

(** X13. Keys of the transaction index: with a prefix of two bytes, as the
    allocator assigns them, the key of a transaction id is the prefix
    followed by the bytes of the id, and [_decodeTransactionKey] gives the id
    back. *)
Theorem transaction_key_roundtrip (self : Index) (h : Buffer) :
  length (prefix self) = 2%nat -> wf h ->
  _encodeTransactionKey self (toHex h) = Some (prefix self ++ h) /\
  _decodeTransactionKey (prefix self ++ h) = toHex h.
Proof.
  intros Hp Hwf. unfold _encodeTransactionKey, _decodeTransactionKey, slice_from.
  rewrite fromHex_toHex by done. split; [done|].
  by rewrite drop_app_length' by done.
Qed.

Section WithLibraries.
Variable parse : Buffer -> Parsed.
Variable getTimestamp : string -> Error + Z.
Variable transactions : Block -> list Transaction.
Variable race : list (outcome Z) -> outcome Z.

Lemma eachTransaction_direction height timestamp m txs : forall self operations,
  eachTransaction parse race del height timestamp m txs self (map asDel operations) =
    (let '(o, self') :=
       eachTransaction parse race put height timestamp m txs self operations in
     (match o with
      | Ret ops => Ret (map asDel ops)
      | Err e => Err e
      | Thrown e => Thrown e
      | NoCallback => NoCallback
      end, self')).
Proof.
  induction txs as [|tx txs IH]; intros self operations; [done|].
  cbn [eachTransaction].
  destruct (_getInputValues parse race self m tx) as [vals|e|e|]; try done.
  cbv zeta.
  destruct (_encodeTransactionKey _ _) as [k|]; [|done].
  destruct (_encodeTransactionValue _) as [v|]; [|done].
  rewrite <- IH. by rewrite map_app.
Qed.

(** X14. The direction of a block changes nothing but the type of the
    operations: whatever [blockHandler] answers for a connect, it answers
    for a disconnect — the same error or exception, or the same operations,
    keys and values included, as deletions — and it leaves the same
    [currentTransactions]. *)
Theorem blockHandler_direction (self : Index) (m : gmap string Buffer) (block : Block) :
  blockHandler parse getTimestamp transactions race self m block false =
    (let '(o, self') :=
       blockHandler parse getTimestamp transactions race self m block true in
     (match o with
      | Ret ops => Ret (map asDel ops)
      | Err e => Err e
      | Thrown e => Thrown e
      | NoCallback => NoCallback
      end, self')).
Proof.
  unfold blockHandler.
  destruct (getTimestamp (hash block)) as [e|timestamp]; [done|].
  apply (eachTransaction_direction _ _ _ _ _ []).
Qed.

Lemma inputValue_cached self m1 m2 input :
  is_Some (currentTransactions self !! toHex (prevTxId input)) ->
  inputValue parse self m1 input = inputValue parse self m2 input.
Proof. intros [tx Htx]. unfold inputValue, getTransaction. by rewrite Htx. Qed.

Lemma _getInputValues_cached self m1 m2 tx :
  spendsCached parse self [] tx ->
  _getInputValues parse race self m1 tx = _getInputValues parse race self m2 tx.
Proof.
  intros Hs. unfold _getInputValues.
  destruct (isCoinbase (parse (toBuffer tx))) eqn:Hcb; [done|].
  destruct Hs as [Hs|Hs]; [congruence|].
  f_equal. apply map_ext_in. intros input Hin%list_elem_of_In.
  apply inputValue_cached.
  destruct (Hs input Hin) as [Hc|(prev & Hprev & _)]; [done|].
  by apply elem_of_nil in Hprev.
Qed.

Lemma eachTransaction_cached action height timestamp m1 m2 txs :
  forall self operations,
    (forall before tx after, txs = before ++ tx :: after -> spendsCached parse self before tx) ->
    eachTransaction parse race action height timestamp m1 txs self operations =
    eachTransaction parse race action height timestamp m2 txs self operations.
Proof.
  induction txs as [|tx txs IH]; intros self operations Hs; [done|].
  cbn [eachTransaction].
  rewrite (_getInputValues_cached self m1 m2 tx) by (by apply (Hs [] tx txs)).
  destruct (_getInputValues parse race self m2 tx) as [vals|e|e|]; try done.
  cbv zeta.
  destruct (_encodeTransactionKey _ _) as [k|]; [|done].
  destruct (_encodeTransactionValue _) as [v|]; [|done].
  apply IH. intros before tx' after Heq.
  destruct (Hs (tx :: before) tx' after) as [Hcb|Hin]; [by rewrite Heq | by left |].
  right. intros input Hinput. cbn [currentTransactions with_current toBuffer decorate].
  destruct (Hin input Hinput) as [[c Hc]|(prev & Hprev & Hid)].
  - left. destruct (decide (id (parse (toBuffer tx)) = toHex (prevTxId input))) as [->|Hne].
    + rewrite lookup_insert_eq. by eexists.
    + rewrite lookup_insert_ne by done. by eexists.
  - apply elem_of_cons in Hprev as [->|Hprev].
    + left. rewrite Hid, lookup_insert_eq. by eexists.
    + right. by exists prev.
Qed.

(** X15. Spends inside a block are resolved from the transactions of the
    block, never from the store: when every transaction of the block is a
    coinbase or spends outputs of transactions that come earlier in the same
    block only, [blockHandler] gives the same answer and leaves the same
    [currentTransactions] whatever the store contains. *)
Theorem blockHandler_internal_spends (self : Index) (m1 m2 : gmap string Buffer)
    (block : Block) (connectBlock : bool) :
  (forall before tx after, transactions block = before ++ tx :: after ->
     isCoinbase (parse (toBuffer tx)) = true \/
     forall input, input ∈ inputs (parse (toBuffer tx)) ->
       exists prev, prev ∈ before /\ id (parse (toBuffer prev)) = toHex (prevTxId input)) ->
  blockHandler parse getTimestamp transactions race self m1 block connectBlock =
  blockHandler parse getTimestamp transactions race self m2 block connectBlock.
Proof.
  intros Hs. unfold blockHandler.
  destruct (getTimestamp (hash block)) as [e|timestamp]; [done|].
  apply eachTransaction_cached. intros before tx after Heq.
  destruct (Hs before tx after Heq) as [Hcb|Hin]; [by left|].
  right. intros input Hinput. right. by apply Hin.
Qed.

(** ** What the block handler builds *)

Lemma collect_Some {A} (f : A -> outcome Z) l : forall values,
  collect (map f l) = Some values -> Forall2 (fun x v => f x = Ret v) l values.
Proof.
  induction l as [|x l IH]; intros values; cbn [map collect].
  - intros [= <-]. constructor.
  - destruct (f x) as [v|e|e|] eqn:Hx; try done.
    destruct (collect (map f l)) as [vs|] eqn:Hc; [|done].
    cbn [mbind option_bind]. intros [= <-]. constructor; [done | by apply IH].
Qed.

Lemma mapLimit_Ret results values :
  mapLimit race results = Ret values -> collect results = Some values.
Proof.
  unfold mapLimit. destruct (collect results) as [vs|]; [by intros [= ->]|].
  by destruct (race _).
Qed.

(** The amounts found for the inputs of a transaction are amounts of parsed
    outputs, one for each input. *)
Lemma _getInputValues_Ret self m tx values :
  (forall raw o, o ∈ outputs (parse raw) -> 0 <= satoshis o < 2 ^ 64) ->
  _getInputValues parse race self m tx = Ret values ->
  Forall (fun v => 0 <= v < 2 ^ 64) values /\
  length values =
    (if isCoinbase (parse (toBuffer tx)) then 0%nat
     else length (inputs (parse (toBuffer tx)))).
Proof.
  intros Hrange. unfold _getInputValues.
  destruct (isCoinbase (parse (toBuffer tx))); [by intros [= <-]|].
  intros H%mapLimit_Ret%collect_Some.
  split; [|symmetry; by eapply Forall2_length].
  induction H as [|input v inputs' values' Hv _ IH]; constructor; [|done].
  unfold inputValue in Hv.
  destruct (getTransaction self m (toHex (prevTxId input)) false) as [[t|raw|]|e|e|];
    try done.
  - destruct (outputs (parse (toBuffer t)) !! outputIndex input) as [o|] eqn:Ho; [|done].
    injection Hv as <-. apply (Hrange (toBuffer t)). by eapply list_elem_of_lookup_2.
  - destruct (outputs (parse raw) !! outputIndex input) as [o|] eqn:Ho; [|done].
    injection Hv as <-. apply (Hrange raw). by eapply list_elem_of_lookup_2.
Qed.

(** A record that was encoded decodes to what was encoded. *)
Lemma encode_then_decode t b :
  _encodeTransactionValue t = Some b ->
  0 <= TransactionService.__timestamp t < 2 ^ 64 ->
  Forall (fun v => 0 <= v < 2 ^ 64) (__inputValues t) ->
  _decodeTransactionValue b = Some t.
Proof.
  destruct t as [raw h ts vs]; cbn [TransactionService.__timestamp __inputValues].
  unfold _encodeTransactionValue;
    cbn [TransactionService.__height TransactionService.__timestamp __inputValues toBuffer].
  destruct (writeUInt32BE h) as [hb|] eqn:Hh; [|done]. cbn [mbind option_bind].
  destruct (writeUInt16BE (Z.of_nat (length vs) * 8)) as [lb|] eqn:Hl; [|done].
  cbn [mbind option_bind]. intros Hb Hts Hvs. apply (inj Some) in Hb. subst b.
  apply writeUIntBE_inv in Hh as [Hhr ->]. apply writeUIntBE_inv in Hl as [Hlr ->].
  unfold _decodeTransactionValue, readUInt32BE, readUInt16BE, readDoubleBE, writeDoubleBE.
  rewrite (readUIntBE_0 4 h) by done. cbn [mbind option_bind].
  rewrite (readUIntBE_at 8 4 (be_bytes 4 h) ts)
    by (apply length_be_bytes || (change (256 ^ Z.of_nat 8) with (2 ^ 64); lia)).
  cbn [mbind option_bind].
  rewrite (app_assoc (be_bytes 4 h) (be_bytes 8 ts)).
  rewrite (readUIntBE_at 2 12 _ (Z.of_nat (length vs) * 8))
    by ((rewrite length_app, !length_be_bytes; lia) || done).
  cbn [mbind option_bind]. rewrite iterations_bytes.
  rewrite (app_assoc _ (be_bytes 2 _)).
  rewrite readInputValues_written;
    [| rewrite !length_app, !length_be_bytes; lia | done].
  cbn [mbind option_bind]. f_equal. f_equal.
  unfold slice_from. rewrite (app_assoc _ (writeInputValues vs)).
  apply drop_app_length'.
  rewrite !length_app, !length_be_bytes, length_writeInputValues. lia.
Qed.

Lemma eachTransaction_Ret action height timestamp m txs :
  forall self operations ops self',
    eachTransaction parse race action height timestamp m txs self operations = (Ret ops, self') ->
    exists added,
      ops = operations ++ added /\
      Forall2 (built parse race self action height timestamp m) txs added /\
      (forall txid, is_Some (currentTransactions self' !! txid) <->
         is_Some (currentTransactions self !! txid) \/
         exists tx, tx ∈ txs /\ id (parse (toBuffer tx)) = txid).
Proof.
  induction txs as [|tx txs IH]; intros self operations ops self'.
  - cbn [eachTransaction]. intros [= <- <-]. exists []. rewrite app_nil_r.
    split; [done|]. split; [constructor|].
    intros txid. split; [by left|]. intros [H|(tx & Hin & _)]; [done|].
    by apply elem_of_nil in Hin.
  - cbn [eachTransaction].
    destruct (_getInputValues parse race self m tx) as [vals|e|e|] eqn:Hvals; try done.
    cbv zeta. cbn [toBuffer decorate].
    destruct (_encodeTransactionKey _ _) as [k|] eqn:Hk; [|done].
    destruct (_encodeTransactionValue _) as [v|] eqn:Hv; [|done].
    intros Hrun. destruct (IH _ _ _ _ Hrun) as (added & -> & Hbuilt & Hcache).
    exists ({| type := action; key := keyOf k; value := v |} :: added).
    split; [by rewrite <- app_assoc|]. split.
    + constructor; [|exact Hbuilt].
      split; [done|]. split.
      * unfold _encodeTransactionKey in Hk. cbn [prefix with_current] in Hk.
        destruct (fromHex (id (parse (toBuffer tx)))) as [h|]; [|done].
        injection Hk as <-. by exists h.
      * exists (currentTransactions self), vals. split; [|done].
        destruct self; exact Hvals.
    + intros txid. rewrite Hcache. cbn [currentTransactions with_current].
      destruct (decide (id (parse (toBuffer tx)) = txid)) as [<-|Hne].
      * rewrite lookup_insert_eq. split; [|by left; eexists].
        intros _. right. exists tx. split; [by left | done].
      * rewrite lookup_insert_ne by done. split.
        { intros [H|(tx' & Hin & Hid)]; [by left|].
          right. exists tx'. split; [by right | done]. }
        intros [H|(tx' & Hin & Hid)]; [by left|].
        apply elem_of_cons in Hin as [->|Hin]; [done|].
        right. by exists tx'.
Qed.

Lemma built_indexes self action height timestamp m tx op :
  (forall raw o, o ∈ outputs (parse raw) -> 0 <= satoshis o < 2 ^ 64) ->
  0 <= timestamp < 2 ^ 64 ->
  built parse race self action height timestamp m tx op ->
  indexes parse self action height timestamp tx op.
Proof.
  intros Hrange Hts (Htype & Hkey & cache & vals & Hvals & Henc).
  split; [done|]. split; [done|]. exists vals.
  apply _getInputValues_Ret in Hvals as [Hvr Hlen]; [|done].
  split; [|done]. by apply encode_then_decode.
Qed.

Lemma blockHandler_built self self' m block connectBlock timestamp ops :
  getTimestamp (hash block) = inr timestamp ->
  blockHandler parse getTimestamp transactions race self m block connectBlock =
    (Ret ops, self') ->
  Forall2 (built parse race self (if connectBlock then put else del)
             (Async.__height block) timestamp m) (transactions block) ops /\
  (forall txid, is_Some (currentTransactions self' !! txid) <->
     exists tx, tx ∈ transactions block /\ id (parse (toBuffer tx)) = txid).
Proof.
  intros Hstamp. unfold blockHandler. rewrite Hstamp. intros Hrun.
  apply eachTransaction_Ret in Hrun as (added & -> & Hbuilt & Hcache).
  cbn [app]. split; [exact Hbuilt|].
  intros txid. rewrite Hcache. cbn [currentTransactions with_current].
  rewrite lookup_empty. split; [|by right].
  intros [[? H]|H]; [discriminate H | done].
Qed.

(** X16. When [blockHandler] succeeds it hands over one operation for each
    transaction of the block, in the order of the block: a put for a
    connect and a del for a disconnect, under the key made of the prefix of
    the service and the bytes of the transaction id, with a value that
    decodes to the bytes of the transaction, the height of the block, the
    timestamp the timestamp service gave for the block, and one amount for
    each input (none for a coinbase). Afterwards [currentTransactions] holds
    the transactions of this block and no other. *)
Theorem blockHandler_operations (self self' : Index) (m : gmap string Buffer)
    (block : Block) (connectBlock : bool) (timestamp : Z) (ops : list Operation) :
  (forall raw o, o ∈ outputs (parse raw) -> 0 <= satoshis o < 2 ^ 64) ->
  getTimestamp (hash block) = inr timestamp -> 0 <= timestamp < 2 ^ 64 ->
  blockHandler parse getTimestamp transactions race self m block connectBlock =
    (Ret ops, self') ->
  Forall2 (indexes parse self (if connectBlock then put else del) (Async.__height block) timestamp)
    (transactions block) ops /\
  (forall txid, is_Some (currentTransactions self' !! txid) <->
     exists tx, tx ∈ transactions block /\ id (parse (toBuffer tx)) = txid).
Proof.
  intros Hrange Hstamp Hts Hrun.
  destruct (blockHandler_built _ _ _ _ _ _ _ Hstamp Hrun) as [Hbuilt Hcache].
  split; [|done].
  eapply Forall2_impl; [exact Hbuilt|].
  intros tx op Hb. by apply (built_indexes _ _ _ _ m).
Qed.

End WithLibraries.

Lemma coinbaseId_wf : wf coinbaseId.
Proof. unfold coinbaseId. repeat constructor; unfold is_byte; lia. Qed.

Lemma spendId_wf : wf spendId.
Proof. unfold spendId. repeat constructor; unfold is_byte; lia. Qed.

Lemma sampleParse_range raw o :
  o ∈ outputs (sampleParse raw) -> 0 <= satoshis o < 2 ^ 64.
Proof.
  unfold sampleParse. repeat case_decide; cbn [outputs]; intros Hin;
    repeat (apply elem_of_cons in Hin as [->|Hin]; [cbn [satoshis]; lia|]);
    by apply elem_of_nil in Hin.
Qed.

Lemma transaction_key_roundtrip_witness :
  _encodeTransactionKey sampleIndex (toHex coinbaseId) = Some (prefix sampleIndex ++ coinbaseId) /\
  _decodeTransactionKey (prefix sampleIndex ++ coinbaseId) = toHex coinbaseId.
Proof.
  apply (transaction_key_roundtrip sampleIndex coinbaseId);
    [reflexivity | apply coinbaseId_wf].
Defined.

Lemma blockHandler_internal_spends_witness :
  blockHandler sampleParse sampleTimestamps sampleTransactions firstToFail
    sampleIndex ∅ Samples.sampleBlock true =
  blockHandler sampleParse sampleTimestamps sampleTransactions firstToFail
    sampleIndex (store indexedState) Samples.sampleBlock true.
Proof.
  apply blockHandler_internal_spends. intros before tx after Heq.
  unfold sampleTransactions in Heq.
  destruct before as [|a [|b before]].
  - injection Heq as <- _. by left.
  - injection Heq as <- <- _. right. intros input Hin.
    apply elem_of_cons in Hin as [->|Hin]; [|by apply elem_of_nil in Hin].
    exists (undecorated coinbaseRaw). split; [by left | reflexivity].
  - injection Heq as _ _ Heq. by destruct before.
Defined.

Lemma blockHandler_operations_witness :
  exists ops self',
    blockHandler sampleParse sampleTimestamps sampleTransactions firstToFail
      sampleIndex ∅ Samples.sampleBlock true = (Ret ops, self') /\
    Forall2 (indexes sampleParse sampleIndex put 70000 4788187109533745152)
      (sampleTransactions Samples.sampleBlock) ops /\
    (forall txid, is_Some (currentTransactions self' !! txid) <->
       exists tx, tx ∈ sampleTransactions Samples.sampleBlock /\
                  id (sampleParse (toBuffer tx)) = txid).
Proof.
  eexists _, _. split; [vm_compute; reflexivity|].
  apply (blockHandler_operations sampleParse sampleTimestamps sampleTransactions
           firstToFail sampleIndex _ ∅ Samples.sampleBlock true);
    [apply sampleParse_range | reflexivity | lia | vm_compute; reflexivity].
Defined.

End IndexFacts.

(* ===================================================================== *)
(** * The transaction index in the store of the DB service *)
(* ===================================================================== *)

Module IndexStoreFacts.
Import Buf BufFacts Async TransactionService TransactionIndex IndexVocabulary IndexSamples.
Import StoreFacts TipFacts ApplierFacts PrefixFacts UniquenessFacts IndexFacts.
Import DB Vocabulary.

Lemma lookup_map {A B} (f : A -> B) (l : list A) : forall i,
  map f l !! i = f <$> (l !! i).
Proof. induction l as [|x l IH]; intros [|i]; cbn; auto. Qed.

Lemma apply_batch_snoc ops op m :
  apply_batch (ops ++ [op]) m = apply_op (apply_batch ops m) op.
Proof. unfold apply_batch. by rewrite fold_left_app. Qed.

(** The last word on a key: when every operation of a batch on the key of
    the put [op] is [op] itself, the batch leaves the value of [op] there. *)
Lemma apply_batch_put batch m op :
  op ∈ batch -> type op = put ->
  (forall r, r ∈ batch -> key r = key op -> r = op) ->
  apply_batch batch m !! key op = Some (value op).
Proof.
  induction batch as [|x batch IH] using rev_ind; intros Hin Hput Hsame.
  - by apply elem_of_nil in Hin.
  - rewrite apply_batch_snoc. unfold apply_op.
    destruct (decide (key x = key op)) as [Hk|Hk].
    + assert (x = op) as ->
        by (apply Hsame; [apply elem_of_app; right; by left | done]).
      rewrite Hput. apply lookup_insert_eq.
    + assert (op ∈ batch) as Hin'.
      { apply elem_of_app in Hin as [?|Hx]; [done|].
        apply elem_of_cons in Hx as [->|Hx]; [done | by apply elem_of_nil in Hx]. }
      assert (apply_batch batch m !! key op = Some (value op)) as Hrec
        by (apply IH; [done | done | intros r Hr; apply Hsame, elem_of_app; by left]).
      destruct (type x); [by rewrite lookup_insert_ne | by rewrite lookup_delete_ne].
Qed.

(** A key that a batch deletes and never puts is absent afterwards. *)
Lemma apply_batch_del batch m k :
  (exists op, op ∈ batch /\ key op = k) ->
  (forall r, r ∈ batch -> key r = k -> type r = del) ->
  apply_batch batch m !! k = None.
Proof.
  induction batch as [|x batch IH] using rev_ind; intros (op & Hin & Hkey) Hdel.
  - by apply elem_of_nil in Hin.
  - rewrite apply_batch_snoc. unfold apply_op.
    destruct (decide (key x = k)) as [Hk|Hk].
    + rewrite (Hdel x) by ((apply elem_of_app; right; by left) || done). rewrite <- Hk. apply lookup_delete_eq.
    + assert (op ∈ batch) as Hin'.
      { apply elem_of_app in Hin as [?|Hx]; [done|].
        apply elem_of_cons in Hx as [->|Hx]; [done | by apply elem_of_nil in Hx]. }
      assert (apply_batch batch m !! k = None) as Hrec
        by (apply IH; [by exists op | intros r Hr; apply Hdel, elem_of_app; by left]).
      destruct (type x); [by rewrite lookup_insert_ne | by rewrite lookup_delete_ne].
Qed.

Lemma eachHandler_inr sel block add mods : forall operations ops,
  eachHandler sel block add mods operations = inr ops ->
  ops = operations ++ concat (map (opsOf sel block add) mods).
Proof.
  induction mods as [|svc mods IH]; intros operations ops; cbn [eachHandler map concat].
  - intros [= <-]. by rewrite app_nil_r.
  - unfold opsOf at 1. destruct (sel svc) as [handler|].
    + destruct (handler block add) as [e|[o|]]; [done| |].
      * intros ->%IH. by rewrite app_assoc.
      * by intros ->%IH.
    + by intros ->%IH.
Qed.

Lemma getConcurrentTipOperation_shape block add t :
  getConcurrentTipOperation block add = Some t ->
  t = {| type := put; key := dbPrefix +:+ "concurrentTip"; value := value t |}.
Proof.
  unfold getConcurrentTipOperation. destruct add.
  - destruct (writeUInt32BE (Async.__height block)); [|done]. simpl.
    destruct (fromHex (hash block)); [|done]. simpl. by intros [= <-].
  - destruct (writeUInt32BE (Async.__height block - 1)); [|done]. simpl. by intros [= <-].
Qed.

(** The keys of an index with a prefix other than that of the DB service
    are not keys of the DB service. *)
Lemma index_key_not_db p h suffix :
  length p = 2%nat -> wf p -> p <> [0; 0] -> keyOf (p ++ h) <> dbPrefix +:+ suffix.
Proof.
  destruct p as [|a [|b [|c p]]]; try done. intros _ Hwf Hne Heq.
  apply Forall_cons in Hwf as [Ha Hwf]. apply Forall_cons in Hwf as [Hb _].
  unfold is_byte in Ha, Hb. cbn in Heq. injection Heq as Ha0 Hb0 _.
  apply (f_equal N_of_ascii) in Ha0, Hb0.
  rewrite N_ascii_embedding in Ha0, Hb0 by lia. cbn in Ha0, Hb0.
  apply Hne. f_equal; [lia|]. f_equal. lia.
Qed.

Section WithNode.
Variable services : list Service.
Variable completion : list Service -> list Service.
Variable parse : Buffer -> Parsed.
Variable getTimestamp : string -> Error + Z.
Variable transactions : Block -> list Transaction.
Variable race : list (outcome Z) -> outcome Z.

(** A commit that succeeds has applied the batch of the block. *)
Lemma applyBlock_Ret block connect s s' :
  applyBlock services completion block connect s = (Ret tt, s') ->
  exists t ct,
    getTipOperation block connect = Some t /\
    getConcurrentTipOperation block connect = Some ct /\
    store s' = apply_batch (batchOf services completion block connect t ct) (store s).
Proof.
  rewrite applyBlock_unfold.
  unfold bind, getConcurrentBlockOperations, getSerialBlockOperations, ofSum.
  destruct (eachHandler concurrentBlockHandler block connect (completion services) [])
    as [e|ops1] eqn:Hconc; [done|]. cbn [ret].
  destruct (eachHandler DB.blockHandler block connect services []) as [e|ops2] eqn:Hser;
    [done|]. cbn [ret].
  destruct (getTipOperation block connect) as [t|]; [|done]. cbn [orThrow ret].
  destruct (getConcurrentTipOperation block connect) as [ct|]; [|done]. cbn [orThrow ret].
  intros Hrun. exists t, ct. split; [done|]. split; [done|].
  apply eachHandler_inr in Hconc as ->. apply eachHandler_inr in Hser as ->.
  destruct (store_batch_calls
              (((([] ++ concat (map (opsOf concurrentBlockHandler block connect)
                                  (completion services))) ++
                 [] ++ concat (map (opsOf DB.blockHandler block connect) services)) ++ [t]) ++ [ct]) s)
    as (r & s1 & Hrun' & _ & Hdone & _).
  rewrite Hrun in Hrun'. injection Hrun' as <- <-.
  rewrite Hdone by done. unfold batchOf. cbn [app]. by rewrite <- !app_assoc.
Qed.

(** Where an operation of the batch of a block comes from. *)
Lemma batchOf_source block connect t ct op :
  completion services ≡ₚ services ->
  op ∈ batchOf services completion block connect t ct ->
  op = t \/ op = ct \/
  exists other, other ∈ services /\
    (op ∈ opsOf concurrentBlockHandler block connect other \/
     op ∈ opsOf DB.blockHandler block connect other).
Proof.
  intros Hperm. unfold batchOf. rewrite !elem_of_app.
  intros [Hin|[Hin|Hin]].
  - right; right. apply list_elem_of_In, in_concat in Hin as (l & Hl & Hin).
    apply in_map_iff in Hl as (other & <- & Hother).
    exists other. split; [rewrite <- Hperm; by apply list_elem_of_In|].
    left. by apply list_elem_of_In.
  - right; right. apply list_elem_of_In, in_concat in Hin as (l & Hl & Hin).
    apply in_map_iff in Hl as (other & <- & Hother).
    exists other. split; [by apply list_elem_of_In|].
    right. by apply list_elem_of_In.
  - apply elem_of_cons in Hin as [->|Hin]; [by left|].
    apply elem_of_cons in Hin as [->|Hin]; [by right; left|].
    by apply elem_of_nil in Hin.
Qed.

Lemma batchOf_serial block connect t ct svc handler ops op :
  svc ∈ services -> DB.blockHandler svc = Some handler ->
  handler block connect = HOps (Some ops) -> op ∈ ops ->
  op ∈ batchOf services completion block connect t ct.
Proof.
  intros Hsvc Hsel Hh Hop. unfold batchOf. rewrite !elem_of_app. right; left.
  apply list_elem_of_In, in_concat. exists ops. split; [|by apply list_elem_of_In].
  apply in_map_iff. exists svc. split; [|by apply list_elem_of_In].
  unfold opsOf. by rewrite Hsel, Hh.
Qed.

(** The key of the operation built for a transaction with a canonical id. *)
Lemma built_key self action height timestamp m tx op h :
  built parse race self action height timestamp m tx op ->
  wf h -> id (parse (toBuffer tx)) = toHex h ->
  key op = keyOf (prefix self ++ h).
Proof.
  intros (_ & (h' & Hhex & Hkey) & _) Hwf Hid.
  rewrite Hid, fromHex_toHex in Hhex by done. injection Hhex as <-. done.
Qed.

(** No two transactions with canonical and distinct ids share a key. *)
Lemma built_same_key self action height timestamp m txs ops :
  wf (prefix self) ->
  (forall tx, tx ∈ txs -> exists h, wf h /\ id (parse (toBuffer tx)) = toHex h) ->
  NoDup (map (fun tx => id (parse (toBuffer tx))) txs) ->
  Forall2 (built parse race self action height timestamp m) txs ops ->
  forall op r, op ∈ ops -> r ∈ ops -> key r = key op -> r = op.
Proof.
  intros Hp Hcanon Hnodup Hbuilt op r Hop Hr Hkey.
  apply list_elem_of_lookup_1 in Hop as [i Hi]. apply list_elem_of_lookup_1 in Hr as [j Hj].
  destruct (Forall2_lookup_r _ _ _ _ _ Hbuilt Hi) as (tx & Htx & Hb).
  destruct (Forall2_lookup_r _ _ _ _ _ Hbuilt Hj) as (tx' & Htx' & Hb').
  destruct (Hcanon tx) as (h & Hwf & Hid); [by eapply list_elem_of_lookup_2|].
  destruct (Hcanon tx') as (h' & Hwf' & Hid'); [by eapply list_elem_of_lookup_2|].
  rewrite (built_key _ _ _ _ _ _ _ _ Hb Hwf Hid),
          (built_key _ _ _ _ _ _ _ _ Hb' Hwf' Hid') in Hkey.
  apply keyOf_inj in Hkey; [|by apply wf_app..].
  apply app_inv_head in Hkey. subst h'.
  assert (i = j) as ->; [|congruence].
  apply (NoDup_lookup _ i j (toHex h) Hnodup);
    rewrite lookup_map; [rewrite Htx | rewrite Htx']; cbn; congruence.
Qed.

(** X17. What the DB service connects, the index finds: when the
    transaction service is one of the services whose serial handlers the DB
    service runs, ids are hex strings of bytes and differ within the block,
    the index has a two-byte prefix of its own, and no other service writes
    under that prefix, then after a [connectBlock] that succeeds
    [getTransaction] finds every transaction of the block in the store -
    for any instance with that prefix that does not hold the id in
    [currentTransactions] - with the bytes of the transaction, the height
    of the block, the timestamp of the block and one amount per input. *)
Theorem connected_transactions_found (self self' : Index) (s s' : State) (block : Block)
    (timestamp : Z) (svc : Service) (handler : Handler) (ops : list Operation) :
  (forall raw o, o ∈ outputs (parse raw) -> 0 <= satoshis o < 2 ^ 64) ->
  getTimestamp (hash block) = inr timestamp -> 0 <= timestamp < 2 ^ 64 ->
  length (prefix self) = 2%nat -> wf (prefix self) -> prefix self <> [0; 0] ->
  (forall tx, tx ∈ transactions block ->
     exists h, wf h /\ id (parse (toBuffer tx)) = toHex h) ->
  NoDup (map (fun tx => id (parse (toBuffer tx))) (transactions block)) ->
  TransactionIndex.blockHandler parse getTimestamp transactions race self (store s) block true =
    (Ret ops, self') ->
  svc ∈ services -> DB.blockHandler svc = Some handler ->
  handler block true = HOps (Some ops) ->
  completion services ≡ₚ services ->
  (forall other op, other ∈ services ->
     op ∈ opsOf concurrentBlockHandler block true other \/
     op ∈ opsOf DB.blockHandler block true other ->
     op ∈ ops \/ forall h, key op <> keyOf (prefix self ++ h)) ->
  connectBlock services completion block s = (Ret tt, s') ->
  forall tx reader,
    tx ∈ transactions block ->
    prefix reader = prefix self ->
    currentTransactions reader !! id (parse (toBuffer tx)) = None ->
    exists inputValues,
      getTransaction reader (store s') (id (parse (toBuffer tx))) false =
        Ret (FoundTransaction (decorate tx (Async.__height block) timestamp inputValues)) /\
      length inputValues =
        (if isCoinbase (parse (toBuffer tx)) then 0%nat
         else length (inputs (parse (toBuffer tx)))).
Proof.
  intros Hrange Hstamp Hts Hlen Hp Hne Hcanon Hnodup Hrun Hsvc Hsel Hh Hperm Hothers
    Hconnect tx reader Htx Hreader Hcur.
  destruct (blockHandler_built _ _ _ _ _ _ _ _ _ _ _ Hstamp Hrun) as [Hbuilt _].
  destruct (applyBlock_Ret block true s s' Hconnect) as (t & ct & Ht & Hct & ->).
  apply list_elem_of_lookup_1 in Htx as [i Hi].
  destruct (Forall2_lookup_l _ _ _ _ _ Hbuilt Hi) as (op & Hop & Hb).
  destruct (Hcanon tx) as (h & Hwf & Hid); [by eapply list_elem_of_lookup_2|].
  pose proof (built_key _ _ _ _ _ _ _ _ Hb Hwf Hid) as Hkey.
  assert (op ∈ ops) as Hin by (by eapply list_elem_of_lookup_2).
  destruct (built_indexes parse race _ _ _ _ _ _ _ Hrange Hts Hb)
    as (Htype & _ & inputValues & Hdec & Hcount).
  exists inputValues. split; [|done].
  unfold getTransaction. rewrite Hcur. unfold _encodeTransactionKey.
  rewrite Hid, fromHex_toHex by done. cbn [mbind option_bind].
  rewrite Hreader, <- Hkey.
  rewrite (apply_batch_put _ _ op); [by rewrite Hdec | | done |].
  - by eapply batchOf_serial.
  - intros r Hr Hsame. apply (batchOf_source block true t ct r Hperm) in Hr
      as [->|[->|(other & Hother & Hfrom)]].
    + exfalso. rewrite (getTipOperation_shape _ _ _ Ht) in Hsame. cbn [key] in Hsame.
      rewrite Hkey in Hsame. by eapply index_key_not_db.
    + exfalso. rewrite (getConcurrentTipOperation_shape _ _ _ Hct) in Hsame.
      cbn [key] in Hsame. rewrite Hkey in Hsame. by eapply index_key_not_db.
    + destruct (Hothers other r Hother Hfrom) as [Hr|Hr].
      * by eapply built_same_key.
      * exfalso. apply (Hr h). by rewrite Hsame.
Qed.

(** X18. What the DB service disconnects, the index no longer finds: under
    the same conditions on the services, after a [disconnectBlock] that
    succeeds [getTransaction] answers every id of the block with the
    not-found error of the store, unless it holds the id in
    [currentTransactions]. *)
Theorem disconnected_transactions_gone (self self' : Index) (s s' : State) (block : Block)
    (svc : Service) (handler : Handler) (ops : list Operation) :
  length (prefix self) = 2%nat -> wf (prefix self) -> prefix self <> [0; 0] ->
  (forall tx, tx ∈ transactions block ->
     exists h, wf h /\ id (parse (toBuffer tx)) = toHex h) ->
  TransactionIndex.blockHandler parse getTimestamp transactions race self (store s) block false =
    (Ret ops, self') ->
  svc ∈ services -> DB.blockHandler svc = Some handler ->
  handler block false = HOps (Some ops) ->
  completion services ≡ₚ services ->
  (forall other op, other ∈ services ->
     op ∈ opsOf concurrentBlockHandler block false other \/
     op ∈ opsOf DB.blockHandler block false other ->
     op ∈ ops \/ forall h, key op <> keyOf (prefix self ++ h)) ->
  disconnectBlock services completion block s = (Ret tt, s') ->
  forall tx reader,
    tx ∈ transactions block ->
    prefix reader = prefix self ->
    currentTransactions reader !! id (parse (toBuffer tx)) = None ->
    getTransaction reader (store s') (id (parse (toBuffer tx))) false = Err "NotFoundError".
Proof.
  intros Hlen Hp Hne Hcanon Hrun Hsvc Hsel Hh Hperm Hothers Hdisconnect
    tx reader Htx Hreader Hcur.
  assert (exists timestamp, getTimestamp (hash block) = inr timestamp) as [timestamp Hstamp].
  { unfold TransactionIndex.blockHandler in Hrun.
    destruct (getTimestamp (hash block)); [done | by eexists]. }
  destruct (blockHandler_built _ _ _ _ _ _ _ _ _ _ _ Hstamp Hrun) as [Hbuilt _].
  destruct (applyBlock_Ret block false s s' Hdisconnect) as (t & ct & Ht & Hct & ->).
  apply list_elem_of_lookup_1 in Htx as [i Hi].
  destruct (Forall2_lookup_l _ _ _ _ _ Hbuilt Hi) as (op & Hop & Hb).
  destruct (Hcanon tx) as (h & Hwf & Hid); [by eapply list_elem_of_lookup_2|].
  pose proof (built_key _ _ _ _ _ _ _ _ Hb Hwf Hid) as Hkey.
  assert (op ∈ ops) as Hin by (by eapply list_elem_of_lookup_2).
  unfold getTransaction. rewrite Hcur. unfold _encodeTransactionKey.
  rewrite Hid, fromHex_toHex by done. cbn [mbind option_bind].
  rewrite Hreader, apply_batch_del; [done | |].
  - exists op. split; [by eapply batchOf_serial | done].
  - intros r Hr Hsame. apply (batchOf_source block false t ct r Hperm) in Hr
      as [->|[->|(other & Hother & Hfrom)]].
    + exfalso. rewrite (getTipOperation_shape _ _ _ Ht) in Hsame. cbn [key] in Hsame.
      by eapply index_key_not_db.
    + exfalso. rewrite (getConcurrentTipOperation_shape _ _ _ Hct) in Hsame.
      cbn [key] in Hsame. by eapply index_key_not_db.
    + destruct (Hothers other r Hother Hfrom) as [Hr|Hr].
      * apply list_elem_of_lookup_1 in Hr as [j Hj].
        destruct (Forall2_lookup_r _ _ _ _ _ Hbuilt Hj) as (tx' & _ & Htype & _).
        exact Htype.
      * exfalso. by apply (Hr h).
Qed.

End WithNode.

(** The counter of the allocator advances by one for a call at most. *)
Lemma allocate_counter names : forall n s,
  allocatorInv n s -> n + Z.of_nat (length names) <= 65535 ->
  exists n', allocatorInv n' (allocate names s) /\ n' <= n + Z.of_nat (length names).
Proof.
  induction names as [|x names IH]; intros n s Hinv Hlen.
  - exists n. split; [done | simpl; lia].
  - cbn [length] in Hlen.
    destruct (getPrefix_keeps_inv x n s Hinv) as (buffer & n1 & s1 & Hrun & Hinv1 & Hn1 & _);
      [lia|].
    cbn [allocate]. rewrite Hrun. cbn [snd].
    destruct (IH n1 s1 Hinv1) as (n' & Hinv' & Hn'); [lia|].
    exists n'. split; [done | cbn [length]; lia].
Qed.

Lemma listed_lookup (txid : string) txs : forall p : gmap string MempoolEntry,
  p !! txid = Some Listed \/ txid ∈ txs ->
  fold_left (fun p t => <[t := Listed]> p) txs p !! txid = Some Listed.
Proof.
  induction txs as [|t txs IH]; intros p Hin; cbn [fold_left].
  - destruct Hin as [?|Hin]; [done | by apply elem_of_nil in Hin].
  - apply IH. destruct (decide (t = txid)) as [->|Hne].
    + left. apply lookup_insert_eq.
    + destruct Hin as [Hp|Hin].
      * left. by rewrite lookup_insert_ne.
      * apply elem_of_cons in Hin as [->|Hin]; [done | by right].
Qed.

(** X19. The index starts in a key space of its own: on a database where
    the allocator has served at most 65533 calls, all without I/O errors,
    [start] succeeds whatever bitcoind lists for its mempool; the prefix
    the service then holds is the one the DB service has recorded under its
    name, no other service has it, and no key the index builds from it is a
    key of the DB service itself (tip, version, prefix and counter
    records). *)
Theorem start_own_key_space (s0 : State) (names : list string) (serviceName : string)
    (txs : list string) (self : Index) :
  faults s0 = [] ->
  store s0 !! nextUnusedKey = None ->
  (forall service, store s0 !! prefixKey service = None) ->
  Z.of_nat (length names) <= 65533 ->
  exists self' s',
    TransactionIndex.start serviceName (inr txs) self (allocate names s0) =
      (Ret tt, self', s') /\
    store s' !! prefixKey serviceName = Some (prefix self') /\
    (forall other, other <> serviceName ->
       store s' !! prefixKey other <> Some (prefix self')) /\
    (forall h suffix, keyOf (prefix self' ++ h) <> dbPrefix +:+ suffix).
Proof.
  intros Hf Hnext Hnone Hlen.
  assert (allocatorInv 1 s0) as Hinv0.
  { split; [done|]. split; [lia|]. split; [unfold unusedOf; by rewrite Hnext|].
    split; intros *; by rewrite Hnone. }
  destruct (allocate_counter names 1 s0 Hinv0) as (n & Hinv & Hn); [lia|].
  destruct (getPrefix_keeps_inv serviceName n _ Hinv)
    as (buffer & n' & s' & Hrun & Hinv' & _ & Hmine & _); [lia|].
  unfold TransactionIndex.start. rewrite Hrun.
  eexists _, s'. split; [reflexivity|]. cbn [prefix with_prefix].
  destruct Hinv' as (_ & Hn' & _ & Hbelow & Huniq).
  destruct (Hbelow serviceName buffer Hmine) as (j & Hj & ->).
  split; [done|]. split.
  - intros other Hne Hother. apply Hne. by apply (Huniq other serviceName (be_bytes 2 j)).
  - intros h suffix. apply index_key_not_db; [apply length_be_bytes | apply be_bytes_wf |].
    change [0; 0] with (be_bytes 2 0). intros Heq.
    apply be_bytes_inj in Heq; [lia | apply u16_range; lia | apply u16_range; lia].
Qed.

Lemma start_own_key_space_witness :
  exists self' s',
    TransactionIndex.start "transaction" (inr sampleMempool) sampleIndex
      (allocate ["timestamp"; "address"] Samples.emptyState) = (Ret tt, self', s') /\
    store s' !! prefixKey "transaction" = Some (prefix self') /\
    (forall other, other <> "transaction" ->
       store s' !! prefixKey other <> Some (prefix self')) /\
    (forall h suffix, keyOf (prefix self' ++ h) <> dbPrefix +:+ suffix).
Proof.
  apply (start_own_key_space Samples.emptyState ["timestamp"; "address"] "transaction"
           sampleMempool sampleIndex).
  - reflexivity.
  - vm_compute; reflexivity.
  - intros service. apply lookup_empty.
  - simpl. lia.
Defined.

(** X20. What [getTransaction] hands over for the mempool: after [start],
    a query with [queryMempool] for an id that bitcoind listed is answered
    with the [true] recorded for it, not with a transaction, whatever the
    store holds; once the transaction has arrived as a
    [bitcoind/rawtransaction] event, with the transaction of the event,
    which carries no height, timestamp or input values. *)
Theorem getTransaction_mempool (parse : Buffer -> Parsed) (serviceName : string)
    (txs : list string) (self self' : Index) (s s' : State) (m : gmap string Buffer)
    (txid : string) :
  TransactionIndex.start serviceName (inr txs) self s = (Ret tt, self', s') ->
  txid ∈ txs ->
  currentTransactions self !! txid = None ->
  getTransaction self' m txid true = Ret FoundTrue /\
  (forall raw, id (parse raw) = txid ->
     getTransaction (rawTransaction parse raw self') m txid true =
       Ret (FoundUndecorated raw)).
Proof.
  unfold TransactionIndex.start.
  destruct (getPrefix serviceName s) as [[b|e|e|] s1]; try done.
  intros [= <- <-] Hin Hcur. split.
  - unfold getTransaction. cbn [currentTransactions _mempool with_prefix with_mempool].
    rewrite Hcur. by rewrite (listed_lookup txid txs) by (by right).
  - intros raw <-. unfold getTransaction, rawTransaction.
    cbn [currentTransactions _mempool with_prefix with_mempool].
    rewrite Hcur. by rewrite lookup_insert_eq.
Qed.

Lemma getTransaction_mempool_witness :
  getTransaction
    (snd (fst (TransactionIndex.start "transaction" (inr sampleMempool) sampleIndex
                 Samples.emptyState)))
    ∅ (toHex spendId) true = Ret FoundTrue /\
  (forall raw, id (sampleParse raw) = toHex spendId ->
     getTransaction
       (rawTransaction sampleParse raw
          (snd (fst (TransactionIndex.start "transaction" (inr sampleMempool) sampleIndex
                       Samples.emptyState))))
       ∅ (toHex spendId) true = Ret (FoundUndecorated raw)).
Proof.
  eapply (getTransaction_mempool sampleParse "transaction" sampleMempool sampleIndex _
            Samples.emptyState).
  - vm_compute; reflexivity.
  - by left.
  - reflexivity.
Defined.

Lemma sampleIndex_wf : wf (prefix sampleIndex).
Proof. repeat constructor; unfold is_byte; lia. Qed.

Lemma sampleTransactions_canonical tx :
  tx ∈ sampleTransactions Samples.sampleBlock ->
  exists h, wf h /\ id (sampleParse (toBuffer tx)) = toHex h.
Proof.
  intros Hin. apply elem_of_cons in Hin as [->|Hin].
  - exists coinbaseId. split; [apply coinbaseId_wf | reflexivity].
  - apply elem_of_cons in Hin as [->|Hin]; [|by apply elem_of_nil in Hin].
    exists spendId. split; [apply spendId_wf | reflexivity].
Qed.

Lemma sampleTransactions_distinct :
  NoDup (map (fun tx => id (sampleParse (toBuffer tx)))
           (sampleTransactions Samples.sampleBlock)).
Proof.
  apply NoDup_cons. split.
  - intros Hin. apply elem_of_cons in Hin as [Hin|Hin];
      [discriminate Hin | by apply elem_of_nil in Hin].
  - apply NoDup_cons. split; [apply not_elem_of_nil | apply NoDup_nil_2].
Qed.

(** The timestamp service writes under [ts], outside the prefix of the
    sample index. *)
Lemma sample_services_apart m add other op :
  other ∈ [transactionService m; Samples.timestampService] ->
  op ∈ opsOf concurrentBlockHandler Samples.sampleBlock add other \/
  op ∈ opsOf DB.blockHandler Samples.sampleBlock add other ->
  op ∈ opsOf DB.blockHandler Samples.sampleBlock add (transactionService m) \/
  forall h, key op <> keyOf (prefix sampleIndex ++ h).
Proof.
  intros Hother Hfrom. apply elem_of_cons in Hother as [->|Hother].
  - destruct Hfrom as [Hfrom|Hfrom]; [by apply elem_of_nil in Hfrom | by left].
  - apply elem_of_cons in Hother as [->|Hother]; [|by apply elem_of_nil in Hother].
    destruct Hfrom as [Hfrom|Hfrom]; [by apply elem_of_nil in Hfrom|].
    right. intros h. cbn in Hfrom.
    apply elem_of_cons in Hfrom as [->|Hfrom]; [|by apply elem_of_nil in Hfrom].
    cbn. discriminate.
Qed.

Lemma connected_transactions_found_witness :
  exists inputValues,
    getTransaction sampleIndex (store indexedState)
      (id (sampleParse (toBuffer (undecorated spendRaw)))) false =
      Ret (FoundTransaction
             (decorate (undecorated spendRaw) (Async.__height Samples.sampleBlock)
                4788187109533745152 inputValues)) /\
    length inputValues =
      (if isCoinbase (sampleParse (toBuffer (undecorated spendRaw))) then 0%nat
       else length (inputs (sampleParse (toBuffer (undecorated spendRaw))))).
Proof.
  eapply (connected_transactions_found
            [transactionService ∅; Samples.timestampService] (@rev Service)
            sampleParse sampleTimestamps sampleTransactions firstToFail
            sampleIndex _ Samples.emptyState indexedState Samples.sampleBlock
            4788187109533745152 (transactionService ∅)).
  - apply sampleParse_range.
  - reflexivity.
  - lia.
  - reflexivity.
  - apply sampleIndex_wf.
  - discriminate.
  - apply sampleTransactions_canonical.
  - apply sampleTransactions_distinct.
  - vm_compute; reflexivity.
  - by left.
  - reflexivity.
  - vm_compute; reflexivity.
  - symmetry. apply Permutation_rev.
  - intros other op Hother Hfrom.
    apply (sample_services_apart ∅ true other op Hother Hfrom).
  - vm_compute; reflexivity.
  - right. by left.
  - reflexivity.
  - reflexivity.
Defined.

Lemma disconnected_transactions_gone_witness :
  getTransaction sampleIndex (store rewoundState)
    (id (sampleParse (toBuffer (undecorated spendRaw)))) false = Err "NotFoundError".
Proof.
  eapply (disconnected_transactions_gone
            [transactionService (store indexedState); Samples.timestampService]
            (@rev Service)
            sampleParse sampleTimestamps sampleTransactions firstToFail
            sampleIndex _ indexedState rewoundState Samples.sampleBlock
            (transactionService (store indexedState))).
  - reflexivity.
  - apply sampleIndex_wf.
  - discriminate.
  - apply sampleTransactions_canonical.
  - vm_compute; reflexivity.
  - by left.
  - reflexivity.
  - vm_compute; reflexivity.
  - symmetry. apply Permutation_rev.
  - intros other op Hother Hfrom.
    apply (sample_services_apart (store indexedState) false other op Hother Hfrom).
  - vm_compute; reflexivity.
  - right. by left.
  - reflexivity.
  - reflexivity.
Defined.

End IndexStoreFacts.

(* ===================================================================== *)
(** * Properties of the command-line start *)
(* ===================================================================== *)

Module ScaffoldFacts.
Import Async Scaffold ScaffoldSamples.

Lemma stripJs_suffix (p : string) (c : ascii) :
  lineTerminator (codeUnit c) = false -> stripJs (p +:+ String c "js") = p.
Proof.
  intros Hc. induction p as [|a p IH].
  - change (stripJs (String c "js") = EmptyString).
    assert (matchesJs (String c "js") = true) as Hyes
      by (unfold matchesJs; rewrite Hc; reflexivity).
    cbn [stripJs]. by rewrite Hyes.
  - change (String a p +:+ String c "js") with (String a (p +:+ String c "js")).
    assert (matchesJs (String a (p +:+ String c "js")) = false) as Hno.
    { destruct p as [|b [|b' [|b'' p]]]; reflexivity. }
    cbn [stripJs]. rewrite Hno. by rewrite IH.
Qed.

Section WithNode.
Variable req : string -> Exception + Code.
Variable isDirectory : string -> Exception + bool.
Variable resolve : string -> string -> string.
Variable cwd : string.
Variable dirname : string.

(** X21. The file a [requirePath] names: when the path is not a directory
    and ends in any ASCII character other than a line feed or a carriage
    return, followed by [js] - a dot is not asked for -, the loader
    requires the path without these three characters, and takes what it
    gets. *)
Theorem lookInRequirePathConfig_strips (service : Service) (p : string) (c : ascii)
    (v : Code) :
  requirePath (config service) = Some (p +:+ String c "js") ->
  isDirectory (p +:+ String c "js") = inr false ->
  (codeUnit c < 128)%N ->
  codeUnit c <> 10%N -> codeUnit c <> 13%N ->
  req p = inr v ->
  lookInRequirePathConfig req isDirectory service = (v, []).
Proof.
  intros Hpath Hdir Hascii Hlf Hcr Hreq. unfold lookInRequirePathConfig.
  rewrite Hpath, Hdir, stripJs_suffix, Hreq; [done|].
  unfold lineTerminator. apply bool_decide_eq_false.
  rewrite !elem_of_cons, elem_of_nil. lia.
Qed.

Lemma loadModule_loaded service loaded logs :
  loadModule req isDirectory resolve cwd dirname service = (inr loaded, logs) ->
  name loaded = name service /\ config loaded = config service /\
  truthy (module loaded) = true.
Proof.
  unfold loadModule.
  destruct (truthy (fst (orElse _ _ service))) eqn:Hfound; [|done].
  by intros [= <- _].
Qed.

Lemma eachService_loaded config names : forall loaded result logs,
  eachService req isDirectory resolve cwd dirname config names loaded = (inr result, logs) ->
  exists added,
    result = loaded ++ added /\
    map name added = names /\
    Forall (fun service => supported (module service) = true) added.
Proof.
  induction names as [|serviceName names IH]; intros loaded result logs;
    cbn [eachService].
  - intros [= <- _]. exists []. by rewrite app_nil_r.
  - destruct (loadModule _ _ _ _ _ _) as [[e|service] logs1] eqn:Hload; [done|].
    unfold checkService. destruct (supported (module service)) eqn:Hok; [|done].
    destruct (eachService _ _ _ _ _ config names (loaded ++ [service]))
      as [r logs2] eqn:Hrest.
    intros [= -> _]. apply IH in Hrest as (added & -> & Hnames & Hall).
    apply loadModule_loaded in Hload as (Hname & _).
    exists (service :: added). split; [by rewrite <- app_assoc|].
    split; [cbn [map]; by rewrite Hname, Hnames | by constructor].
Qed.

(** X22. What [setupServices] returns: when it returns, it returns one
    entry for each name of [config.services], in the order of the
    configuration, and the module of each entry has a prototype with
    [start] and [stop] and has [dependencies]; without [config.services]
    it returns no entry. *)
Theorem setupServices_loaded (config : Config) (loaded : list Service)
    (logs : list (Level * list LogArg)) :
  setupServices req isDirectory resolve cwd dirname config = (inr loaded, logs) ->
  map name loaded = default [] (services config) /\
  Forall (fun service => supported (module service) = true) loaded.
Proof.
  unfold setupServices. destruct (services config) as [names|].
  - intros (added & -> & Hnames & Hall)%eachService_loaded. done.
  - by intros [= <- _].
Qed.

End WithNode.

Lemma lookInRequirePathConfig_strips_witness :
  lookInRequirePathConfig sampleRequire sampleIsDirectory
    {| name := "plugin";
       config := {| requirePath := Some ("/srv/project/plugin" +:+ String "."%char "js");
                    cwdRequirePath := None |};
       module := Undefined |} =
  (Object None false None, []).
Proof.
  apply (lookInRequirePathConfig_strips sampleRequire sampleIsDirectory _
           "/srv/project/plugin" "."%char);
    try reflexivity; vm_compute; discriminate.
Defined.

Lemma setupServices_loaded_witness :
  exists loaded logs,
    setupServices sampleRequire sampleIsDirectory sampleResolve "/srv/project"
      "/opt/node/lib/scaffold" sampleConfig = (inr loaded, logs) /\
    map name loaded = ["bitcoind"; "insight"; "web"] /\
    Forall (fun service => supported (module service) = true) loaded.
Proof.
  eexists _, _. split; [vm_compute; reflexivity|].
  eapply (setupServices_loaded sampleRequire sampleIsDirectory sampleResolve "/srv/project"
            "/opt/node/lib/scaffold" sampleConfig).
  vm_compute; reflexivity.
Defined.

(** ** Shutting down *)

Lemma stops_app a b : stops (a ++ b) = stops a ++ stops b.
Proof. unfold stops. apply omap_app. Qed.

Lemma exitHandler_stops options err shuttingDown :
  length (stops (fst (exitHandler options err shuttingDown))) =
    ((match err with Some _ => 1 | None => 0 end) +
     (if sigint options && negb shuttingDown then 1 else 0))%nat /\
  snd (exitHandler options err shuttingDown) = (shuttingDown || sigint options).
Proof.
  unfold exitHandler.
  destruct err as [e|], (sigint options), shuttingDown; cbn [fst snd];
    rewrite ?stops_app; try destruct (stack e); done.
Qed.

(** X23. Stop requests: over any run of uncaught exceptions and SIGINTs,
    the handlers ask the node to stop once for each event that carries an
    error, and once more for all the SIGINTs together, however many there
    are - and not even once for these when [shuttingDown] was set before;
    [shuttingDown] is set by the first SIGINT and never cleared. *)
Theorem stop_requests (events : list ProcessEvent) (shuttingDown : bool) :
  length (stops (fst (deliver events shuttingDown))) =
    (errors events +
     (if negb shuttingDown && existsb interrupt events then 1 else 0))%nat /\
  snd (deliver events shuttingDown) = (shuttingDown || existsb interrupt events).
Proof.
  revert shuttingDown. induction events as [|event events IH]; intros shuttingDown.
  - cbn. by rewrite andb_false_r, orb_false_r.
  - cbn [deliver].
    destruct (registerExitHandlers event shuttingDown) as [effects flag] eqn:Hnow.
    destruct (deliver events flag) as [effects' flag'] eqn:Hrest.
    destruct (IH flag) as [Hcount Hflag]. rewrite Hrest in Hcount, Hflag.
    cbn [fst snd] in *. rewrite stops_app, length_app, Hcount, Hflag.
    assert (length (stops effects) =
              ((if raised event then 1 else 0) +
               (if interrupt event && negb shuttingDown then 1 else 0))%nat /\
            flag = (shuttingDown || interrupt event)) as [Hhere ->].
    { destruct event as [err|arg]; unfold registerExitHandlers in Hnow;
        [destruct (exitHandler_stops {| exit := true; sigint := false |} err shuttingDown)
           as [H1 H2]
        |destruct (exitHandler_stops {| exit := false; sigint := true |} arg shuttingDown)
           as [H1 H2]];
        rewrite Hnow in H1, H2; cbn [fst snd sigint] in H1, H2;
        [destruct err | destruct arg]; done. }
    rewrite Hhere. unfold errors. cbn [List.filter existsb].
    destruct (raised event), (interrupt event), shuttingDown,
      (existsb interrupt events); cbn; split; (lia || done).
Qed.




End ScaffoldFacts.
